(** * Support/resistance zone detector: a shallow embedding of
    [zone_detector.py] and the properties of its pipeline.

    Modelling choices.
    - Prices ([float] in the source) are rationals [Q].  Every finite float is
      a rational, and comparison, [min] and [max] are exact on floats, so all
      the order-based code is modelled exactly.  The only rounded arithmetic of
      the source is the merge threshold and gap of [_merge_zones]; here it is
      computed in exact rational arithmetic.  NaN and infinities are outside
      the model.
    - Timestamps, strength and the caps of [get_nearest_zones] are Python
      [int]s: [Z].  Positions in a list, [pivot_idx] among them, are [nat];
      the neighbour subscripts of [_init_zone_from_pivot], which the source
      guards against running off either end, are [Z].
    - [type] and [status] are the two-valued strings the dataclass documents:
      inductive types.  A candle dict is a record.
    - Subscripting a list can raise [IndexError]; the [while] loop of
      [_merge_zones] could spin.  Both are cases of the [outcome] monad, and
      their absence is proved, not assumed.
    - [_merge_zones] mutates [Zone] objects in place.  The list of zones is the
      store: one cell per position (the objects of a list are assumed pairwise
      distinct, as they are in [detect_zones], where each one is freshly
      constructed), read and written by index. *)

From Stdlib Require Import ZArith QArith Lqa Lia Bool String.
From stdpp Require Import base relations list sorting strings.

Set Default Proof Using "Type".

(** ** Python values *)

Definition Qlt_bool (x y : Q) : bool := negb (Qle_bool y x).
Definition Qgt_bool (x y : Q) : bool := Qlt_bool y x.
Definition Qge_bool (x y : Q) : bool := Qle_bool y x.

(** [max(a, b)] returns [a] unless [b > a]; [min(a, b)] returns [a] unless
    [b < a]. *)
Definition py_max (a b : Q) : Q := if Qlt_bool a b then b else a.
Definition py_min (a b : Q) : Q := if Qlt_bool b a then b else a.

(** ** Outcomes of a call *)

Inductive outcome (A : Type) : Type :=
  | Ok (a : A)
  | IndexError
  | OutOfFuel.
Arguments Ok {A} a.
Arguments IndexError {A}.
Arguments OutOfFuel {A}.

Definition bind {A B} (m : outcome A) (k : A → outcome B) : outcome B :=
  match m with
  | Ok a => k a
  | IndexError => IndexError
  | OutOfFuel => OutOfFuel
  end.

Notation "x <- m ;; k" := (bind m (fun x => k))
  (at level 100, m at next level, right associativity).

(** [l[i]] for a non-negative [i]. *)
Definition item {A} (l : list A) (i : nat) : outcome A :=
  match l !! i with
  | Some x => Ok x
  | None => IndexError
  end.

(** [l[i] = x]: raises out of range, where stdpp's insert would do nothing. *)
Definition set_item {A} (l : list A) (i : nat) (x : A) : outcome (list A) :=
  if decide (i < length l) then Ok (<[i := x]> l) else IndexError.

(** [range(a, b)] for [0 <= a]; a [b] below [a] gives the empty range, which
    is what truncated subtraction yields as well. *)
Definition py_range (a b : nat) : list nat := seq a (b - a).

(** [for x in xs: s = body(x, s)] *)
Fixpoint for_each {A S} (xs : list A) (body : A → S → outcome S) (s : S)
  : outcome S :=
  match xs with
  | [] => Ok s
  | x :: xs' => s' <- body x s ;; for_each xs' body s'
  end.

(** Short-circuit [and] over operands that may raise. *)
Definition and_then (a b : outcome bool) : outcome bool :=
  x <- a ;; if x then b else Ok false.
Infix "&&&" := and_then (at level 40, left associativity).

(** [l[:k]]: a negative [k] counts from the end. *)
Definition py_slice_to {A} (l : list A) (k : Z) : list A :=
  if (0 <=? k)%Z then take (Z.to_nat k) l
  else take (length l - Z.to_nat (- k)) l.

(** ** Data model *)

Record Candle := {
  open_time : Z;
  open : Q;
  high : Q;
  low : Q;
  close : Q;
  volume : Q
}.

Inductive ZoneType := support | resistance.
Inductive Status := active | broken.

#[global] Instance ZoneType_eq_dec : EqDecision ZoneType.
Proof. solve_decision. Defined.
#[global] Instance Status_eq_dec : EqDecision Status.
Proof. solve_decision. Defined.

Record Zone := {
  type : ZoneType;
  zone_low : Q;
  zone_high : Q;
  origin_time : Z;
  strength : Z;
  touches : Z;
  status : Status;
  pivot_idx : nat
}.

(** Attribute assignments [z.f = v]. *)
Definition set_zone_low (v : Q) (z : Zone) : Zone :=
  {| type := type z; zone_low := v; zone_high := zone_high z;
     origin_time := origin_time z; strength := strength z;
     touches := touches z; status := status z; pivot_idx := pivot_idx z |}.
Definition set_zone_high (v : Q) (z : Zone) : Zone :=
  {| type := type z; zone_low := zone_low z; zone_high := v;
     origin_time := origin_time z; strength := strength z;
     touches := touches z; status := status z; pivot_idx := pivot_idx z |}.
Definition set_strength (v : Z) (z : Zone) : Zone :=
  {| type := type z; zone_low := zone_low z; zone_high := zone_high z;
     origin_time := origin_time z; strength := v;
     touches := touches z; status := status z; pivot_idx := pivot_idx z |}.
Definition set_pivot_idx (v : nat) (z : Zone) : Zone :=
  {| type := type z; zone_low := zone_low z; zone_high := zone_high z;
     origin_time := origin_time z; strength := strength z;
     touches := touches z; status := status z; pivot_idx := v |}.

(** [Zone.distance_pct]; the division raises on a zero price, which the
    [option] records. *)
Definition distance_pct (z : Zone) (price : Q) : option Q :=
  if Qeq_bool price 0 then None
  else match type z with
       | resistance => Some ((zone_low z - price) / price * 100)%Q
       | support => Some ((zone_high z - price) / price * 100)%Q
       end.

(** The pivot dict [{'idx', 'type', 'candle'}]; its ['type'] key is [ptype]
    here, apart from [Zone.type]. *)
Inductive PivotType := High | Low.

Record Pivot := {
  idx : nat;
  ptype : PivotType;
  candle : Candle
}.

(** ** [_find_pivots] *)

Definition high_above (c : Candle) (candles : list Candle) (k : nat)
  : outcome bool :=
  nb <- item candles k ;; Ok (Qgt_bool (high c) (high nb)).

Definition low_below (c : Candle) (candles : list Candle) (k : nat)
  : outcome bool :=
  nb <- item candles k ;; Ok (Qlt_bool (low c) (low nb)).

(** Body of [for i in range(2, n - 2)]; [i] starts at 2, so [i - 1] and
    [i - 2] are never negative subscripts. *)
Definition find_pivots_body (candles : list Candle) (i : nat)
    (pivots : list Pivot) : outcome (list Pivot) :=
  c <- item candles i ;;
  is_ph <- high_above c candles (i - 1) &&& high_above c candles (i - 2)
          &&& high_above c candles (i + 1) &&& high_above c candles (i + 2) ;;
  is_pl <- low_below c candles (i - 1) &&& low_below c candles (i - 2)
          &&& low_below c candles (i + 1) &&& low_below c candles (i + 2) ;;
  let pivots :=
    if is_ph then pivots ++ [{| idx := i; ptype := High; candle := c |}]
    else pivots in
  let pivots :=
    if is_pl then pivots ++ [{| idx := i; ptype := Low; candle := c |}]
    else pivots in
  Ok pivots.

Definition _find_pivots (candles : list Candle) : outcome (list Pivot) :=
  let n := length candles in
  for_each (py_range 2 (n - 2)) (find_pivots_body candles) [].

(** ** [_init_zone_from_pivot] *)

Definition _get_body_high (candle : Candle) : Q :=
  py_max (open candle) (close candle).

Definition _get_body_low (candle : Candle) : Q :=
  py_min (open candle) (close candle).

(** [candles[neighbor_idx]] under the guard
    [0 <= neighbor_idx < len(candles)]. *)
Definition guarded_item (candles : list Candle) (neighbor_idx : Z)
  : option Candle :=
  if decide (0 ≤ neighbor_idx < Z.of_nat (length candles))%Z
  then candles !! Z.to_nat neighbor_idx
  else None.

Definition neighbor_idxs (idx : nat) : list Z :=
  [Z.of_nat idx - 1; Z.of_nat idx - 2; Z.of_nat idx + 1; Z.of_nat idx + 2]%Z.

(** One round of the resistance neighbour loop: the new [zone_low]. *)
Definition raise_zone_low (candles : list Candle) (zone_high zone_low : Q)
    (neighbor_idx : Z) : Q :=
  match guarded_item candles neighbor_idx with
  | Some nb =>
      let nb_body_high := _get_body_high nb in
      if Qgt_bool nb_body_high zone_low && Qlt_bool nb_body_high zone_high
      then py_max zone_low nb_body_high
      else zone_low
  | None => zone_low
  end.

(** One round of the support neighbour loop: the new [zone_high]. *)
Definition lower_zone_high (candles : list Candle) (zone_low zone_high : Q)
    (neighbor_idx : Z) : Q :=
  match guarded_item candles neighbor_idx with
  | Some nb =>
      let nb_body_low := _get_body_low nb in
      if Qlt_bool nb_body_low zone_high && Qgt_bool nb_body_low zone_low
      then py_min zone_high nb_body_low
      else zone_high
  | None => zone_high
  end.

(** [None] is Python's [None]: the candidate is rejected. *)
Definition _init_zone_from_pivot (pivot : Pivot) (candles : list Candle)
  : option Zone :=
  let idx := idx pivot in
  let c := candle pivot in
  match ptype pivot with
  | High =>
      let zone_high := high c in
      let zone_low := _get_body_high c in
      if Qge_bool zone_low zone_high then None else
      let zone_low :=
        fold_left (raise_zone_low candles zone_high) (neighbor_idxs idx)
                  zone_low in
      if Qge_bool zone_low zone_high then None else
      Some {| type := resistance; zone_low := zone_low;
              zone_high := zone_high; origin_time := open_time c;
              strength := 1; touches := 0; status := active;
              pivot_idx := idx |}
  | Low =>
      let zone_low := low c in
      let zone_high := _get_body_low c in
      if Qle_bool zone_high zone_low then None else
      let zone_high :=
        fold_left (lower_zone_high candles zone_low) (neighbor_idxs idx)
                  zone_high in
      if Qle_bool zone_high zone_low then None else
      Some {| type := support; zone_low := zone_low;
              zone_high := zone_high; origin_time := open_time c;
              strength := 1; touches := 0; status := active;
              pivot_idx := idx |}
  end.

(** ** [_refine_zone] *)

(** How a refinement walk ended.  The source does not record it; the tag is
    carried next to the running extreme so that statements can tell the two
    [break]s apart. *)
Inductive Exit := Exhausted | WickBreak | CloseBreak.

Fixpoint refine_support_walk (zone : Zone) (candles : list Candle)
    (range : list nat) (min_close : Q) : outcome (Q * Exit) :=
  match range with
  | [] => Ok (min_close, Exhausted)
  | i :: range' =>
      c <- item candles i ;;
      if Qlt_bool (low c) (zone_low zone) then Ok (min_close, WickBreak)
      else if Qlt_bool (close c) (zone_low zone) then Ok (min_close, CloseBreak)
      else refine_support_walk zone candles range'
             (py_min min_close (close c))
  end.

Fixpoint refine_resistance_walk (zone : Zone) (candles : list Candle)
    (range : list nat) (max_close : Q) : outcome (Q * Exit) :=
  match range with
  | [] => Ok (max_close, Exhausted)
  | i :: range' =>
      c <- item candles i ;;
      if Qgt_bool (high c) (zone_high zone) then Ok (max_close, WickBreak)
      else if Qgt_bool (close c) (zone_high zone)
      then Ok (max_close, CloseBreak)
      else refine_resistance_walk zone candles range'
             (py_max max_close (close c))
  end.

Definition _refine_zone (zone : Zone) (candles : list Candle) : outcome Zone :=
  let pivot_idx := pivot_idx zone in
  let n := length candles in
  match type zone with
  | support =>
      walk <- refine_support_walk zone candles (py_range pivot_idx n)
                (zone_high zone) ;;
      let refined_high := fst walk in
      if Qgt_bool refined_high (zone_low zone)
      then Ok (set_zone_high refined_high zone)
      else Ok zone
  | resistance =>
      walk <- refine_resistance_walk zone candles (py_range pivot_idx n)
                (zone_low zone) ;;
      let refined_low := fst walk in
      if Qlt_bool refined_low (zone_high zone)
      then Ok (set_zone_low refined_low zone)
      else Ok zone
  end.

(** ** [_is_broken] *)

Fixpoint is_broken_loop (zone : Zone) (cs : list Candle) : bool :=
  match cs with
  | [] => false
  | c :: cs' =>
      if bool_decide (type zone = resistance)
         && Qgt_bool (close c) (zone_high zone) then true
      else if bool_decide (type zone = support)
              && Qlt_bool (close c) (zone_low zone) then true
      else is_broken_loop zone cs'
  end.

(** [candles[zone.pivot_idx:]] is [drop]: a slice never raises. *)
Definition _is_broken (zone : Zone) (candles : list Candle) : bool :=
  is_broken_loop zone (drop (pivot_idx zone) candles).

(** ** [_merge_zones] *)

(** The variables of one pass of the [while] body.  [zones] is the store of
    the zone objects, one cell per list position. *)
Record PassState := {
  zones : list Zone;
  used : list bool;
  result : list Zone;
  merged : bool
}.

(** The merge test of a pair, as the source computes it. *)
Definition mergeable (threshold_pct : Q) (z1 z2 : Zone) : bool :=
  let threshold :=
    ((zone_high z1 - zone_low z1 + zone_high z2 - zone_low z2) / 2
     * threshold_pct)%Q in
  let overlap :=
    Qle_bool (zone_low z1) (zone_high z2)
    && Qle_bool (zone_low z2) (zone_high z1) in
  let gap :=
    (py_max (zone_low z1) (zone_low z2)
     - py_min (zone_high z1) (zone_high z2))%Q in
  let close_enough := Qlt_bool gap threshold in
  overlap || close_enough.

(** The four assignments to [base].  Each one reads attributes of [z1] and
    [z2] that no earlier one has written, so reading them from the values
    bound before the first assignment is what the aliased objects give. *)
Definition absorb (z1 z2 base other : Zone) : Zone :=
  let base := set_zone_low (py_min (zone_low z1) (zone_low z2)) base in
  let base := set_zone_high (py_max (zone_high z1) (zone_high z2)) base in
  let base := set_strength (strength base + strength other)%Z base in
  let base := set_pivot_idx (Nat.min (pivot_idx z1) (pivot_idx z2)) base in
  base.

(** Body of [for j in range(i + 1, len(zones))].  [z1] names the object in
    cell [i], so its attributes are read from the store at each round. *)
Definition merge_inner_body (threshold_pct : Q) (i j : nat) (st : PassState)
  : outcome PassState :=
  used_j <- item (used st) j ;;
  if (used_j : bool) then Ok st else
  z1 <- item (zones st) i ;;
  z2 <- item (zones st) j ;;
  if negb (bool_decide (type z1 = type z2)) then Ok st else
  if mergeable threshold_pct z1 z2 then
    let z1_older := (origin_time z1 <=? origin_time z2)%Z in
    let base := if z1_older then z1 else z2 in
    let other := if z1_older then z2 else z1 in
    zones' <- set_item (zones st) (if z1_older then i else j)
                (absorb z1 z2 base other) ;;
    used' <- set_item (used st) j true ;;
    Ok {| zones := zones'; used := used'; result := result st;
          merged := true |}
  else Ok st.

(** Body of [for i in range(len(zones))]. *)
Definition merge_outer_body (threshold_pct : Q) (i : nat) (st : PassState)
  : outcome PassState :=
  used_i <- item (used st) i ;;
  if (used_i : bool) then Ok st else
  st <- for_each (py_range (i + 1) (length (zones st)))
         (merge_inner_body threshold_pct i) st ;;
  z1 <- item (zones st) i ;;
  Ok {| zones := zones st; used := used st; result := result st ++ [z1];
        merged := merged st |}.

(** One round of the [while] body: the new [zones] and [merged]. *)
Definition merge_pass (threshold_pct : Q) (zones0 : list Zone)
  : outcome (list Zone * bool) :=
  let st0 := {| zones := zones0; used := replicate (length zones0) false;
                result := []; merged := false |} in
  st <- for_each (py_range 0 (length zones0))
         (merge_outer_body threshold_pct) st0 ;;
  Ok (result st, merged st).

(** [while merged: ...] with a bound on the number of rounds. *)
Fixpoint merge_while (fuel : nat) (threshold_pct : Q) (zones : list Zone)
  : outcome (list Zone) :=
  match fuel with
  | O => OutOfFuel
  | S fuel' =>
      pass <- merge_pass threshold_pct zones ;;
      if snd pass then merge_while fuel' threshold_pct (fst pass)
      else Ok (fst pass)
  end.

(** A round that merges drops a zone, so [len(zones) + 1] rounds are enough
    ([merge_zones_terminates], [merge_while_more_fuel]). *)
Definition _merge_zones (zones : list Zone) (threshold_pct : Q)
  : outcome (list Zone) :=
  match zones with
  | [] => Ok zones
  | _ => merge_while (S (length zones)) threshold_pct zones
  end.

Definition default_threshold_pct : Q := 0.005.

(** ** [detect_zones] *)

Definition detect_zones_body (candles : list Candle) (pivot : Pivot)
    (zones : list Zone) : outcome (list Zone) :=
  match _init_zone_from_pivot pivot candles with
  | None => Ok zones
  | Some zone =>
      if _is_broken zone candles then Ok zones else
      zone <- _refine_zone zone candles ;;
      Ok (zones ++ [zone])
  end.

Definition is_valid (z : Zone) : bool :=
  Qlt_bool (zone_low z) (zone_high z) && bool_decide (status z = active).

Definition detect_zones (candles : list Candle) : outcome (list Zone) :=
  if bool_decide (candles = []) || (length candles <? 5) then Ok [] else
  pivots <- _find_pivots candles ;;
  zones <- for_each pivots (detect_zones_body candles) [] ;;
  zones <- _merge_zones zones default_threshold_pct ;;
  Ok (List.filter is_valid zones).

(** ** [get_nearest_zones] *)

(** [list.sort(key=...)] and [list.sort(key=..., reverse=True)]: the stable
    sort, by insertion.  An element goes in front of the first later element
    whose key does not come strictly before its own. *)
Fixpoint insert_by (key : Zone → Q) (reverse : bool) (x : Zone)
    (l : list Zone) : list Zone :=
  match l with
  | [] => [x]
  | y :: l' =>
      if (if reverse then Qle_bool (key y) (key x)
          else Qle_bool (key x) (key y))
      then x :: y :: l'
      else y :: insert_by key reverse x l'
  end.

Definition sort_by (key : Zone → Q) (reverse : bool) (l : list Zone)
  : list Zone :=
  fold_right (insert_by key reverse) [] l.

Record Nearest := {
  nearest_resistance : list Zone;
  nearest_support : list Zone
}.

(** Body of [for z in zones]: the two candidate lists. *)
Definition classify (current_price : Q) (acc : list Zone * list Zone)
    (z : Zone) : list Zone * list Zone :=
  let (resistance_l, support_l) := acc in
  if bool_decide (type z = resistance)
     && Qgt_bool (zone_low z) current_price
  then (resistance_l ++ [z], support_l)
  else if bool_decide (type z = support)
          && Qlt_bool (zone_high z) current_price
  then (resistance_l, support_l ++ [z])
  else if bool_decide (type z = resistance)
          && (Qgt_bool (zone_high z) current_price
              && Qgt_bool current_price (zone_low z))
  then (resistance_l ++ [z], support_l)
  else if bool_decide (type z = support)
          && (Qlt_bool (zone_low z) current_price
              && Qlt_bool current_price (zone_high z))
  then (resistance_l, support_l ++ [z])
  else acc.

Definition get_nearest_zones (zones : list Zone) (current_price : Q)
    (max_resistance max_support : Z) : Nearest :=
  let (resistance_l, support_l) :=
    fold_left (classify current_price) zones ([], []) in
  let resistance_l := sort_by zone_low false resistance_l in
  let support_l := sort_by zone_high true support_l in
  {| nearest_resistance := py_slice_to resistance_l max_resistance;
     nearest_support := py_slice_to support_l max_support |}.

Definition default_max_resistance : Z := 3.
Definition default_max_support : Z := 4.

(** ** Specification-side definitions *)

(** The fractal test of the specification, section 4.1: index [i] lies in
    [[2, n-3]] and the bar there is strictly above its four window
    neighbours. *)
Definition is_pivot_high (candles : list Candle) (i : nat) (c : Candle)
  : Prop :=
  2 ≤ i ∧ i + 3 ≤ length candles ∧ candles !! i = Some c ∧
  ∀ k, k ∈ [i - 2; i - 1; i + 1; i + 2] →
       ∃ nb, candles !! k = Some nb ∧ (high nb < high c)%Q.

Definition is_pivot_low (candles : list Candle) (i : nat) (c : Candle)
  : Prop :=
  2 ≤ i ∧ i + 3 ≤ length candles ∧ candles !! i = Some c ∧
  ∀ k, k ∈ [i - 2; i - 1; i + 1; i + 2] →
       ∃ nb, candles !! k = Some nb ∧ (low c < low nb)%Q.

(** What one round of the pivot loop appends, as a function of the index. *)
Definition pivots_at (candles : list Candle) (i : nat) : list Pivot :=
  match candles !! i, candles !! (i - 1), candles !! (i - 2),
        candles !! (i + 1), candles !! (i + 2) with
  | Some c, Some a, Some b, Some d, Some e =>
      (if Qgt_bool (high c) (high a) && Qgt_bool (high c) (high b)
          && Qgt_bool (high c) (high d) && Qgt_bool (high c) (high e)
       then [{| idx := i; ptype := High; candle := c |}] else [])
      ++
      (if Qlt_bool (low c) (low a) && Qlt_bool (low c) (low b)
          && Qlt_bool (low c) (low d) && Qlt_bool (low c) (low e)
       then [{| idx := i; ptype := Low; candle := c |}] else [])
  | _, _, _, _, _ => []
  end.

(** Refinement as the specification words it, section 4.4: from the pivot
    index on, take the bars before the first one whose wick exceeds the outer
    bound or whose close breaches it, accumulate the extreme of their closes
    starting from the inner bound, and apply it only if it stays strictly
    inside the outer bound. *)
Fixpoint run_before (stop : Candle → bool) (bars : list Candle)
  : list Candle :=
  match bars with
  | [] => []
  | c :: bars' => if stop c then [] else c :: run_before stop bars'
  end.

Definition stops_support (zone : Zone) (c : Candle) : bool :=
  Qlt_bool (low c) (zone_low zone) || Qlt_bool (close c) (zone_low zone).

Definition stops_resistance (zone : Zone) (c : Candle) : bool :=
  Qgt_bool (high c) (zone_high zone) || Qgt_bool (close c) (zone_high zone).

Definition refine_spec (zone : Zone) (candles : list Candle) : Zone :=
  let bars := drop (pivot_idx zone) candles in
  match type zone with
  | support =>
      let extreme :=
        fold_left py_min (close <$> run_before (stops_support zone) bars)
                  (zone_high zone) in
      if Qgt_bool extreme (zone_low zone) then set_zone_high extreme zone
      else zone
  | resistance =>
      let extreme :=
        fold_left py_max (close <$> run_before (stops_resistance zone) bars)
                  (zone_low zone) in
      if Qlt_bool extreme (zone_high zone) then set_zone_low extreme zone
      else zone
  end.

(** How the walk of [_refine_zone] ends. *)
Definition refine_exit (zone : Zone) (candles : list Candle) : outcome Exit :=
  let pivot_idx := pivot_idx zone in
  let n := length candles in
  match type zone with
  | support =>
      walk <- refine_support_walk zone candles (py_range pivot_idx n)
                (zone_high zone) ;;
      Ok (snd walk)
  | resistance =>
      walk <- refine_resistance_walk zone candles (py_range pivot_idx n)
                (zone_low zone) ;;
      Ok (snd walk)
  end.

(** [_refine_zone] with the two close-breach [break]s deleted. *)
Fixpoint refine_support_walk_no_close_break (zone : Zone)
    (candles : list Candle) (range : list nat) (min_close : Q)
  : outcome (Q * Exit) :=
  match range with
  | [] => Ok (min_close, Exhausted)
  | i :: range' =>
      c <- item candles i ;;
      if Qlt_bool (low c) (zone_low zone) then Ok (min_close, WickBreak)
      else refine_support_walk_no_close_break zone candles range'
             (py_min min_close (close c))
  end.

Fixpoint refine_resistance_walk_no_close_break (zone : Zone)
    (candles : list Candle) (range : list nat) (max_close : Q)
  : outcome (Q * Exit) :=
  match range with
  | [] => Ok (max_close, Exhausted)
  | i :: range' =>
      c <- item candles i ;;
      if Qgt_bool (high c) (zone_high zone) then Ok (max_close, WickBreak)
      else refine_resistance_walk_no_close_break zone candles range'
             (py_max max_close (close c))
  end.

Definition _refine_zone_no_close_break (zone : Zone) (candles : list Candle)
  : outcome Zone :=
  let pivot_idx := pivot_idx zone in
  let n := length candles in
  match type zone with
  | support =>
      walk <- refine_support_walk_no_close_break zone candles
                (py_range pivot_idx n) (zone_high zone) ;;
      let refined_high := fst walk in
      if Qgt_bool refined_high (zone_low zone)
      then Ok (set_zone_high refined_high zone)
      else Ok zone
  | resistance =>
      walk <- refine_resistance_walk_no_close_break zone candles
                (py_range pivot_idx n) (zone_low zone) ;;
      let refined_low := fst walk in
      if Qlt_bool refined_low (zone_high zone)
      then Ok (set_zone_low refined_low zone)
      else Ok zone
  end.

(** ** The merge pass as a step relation *)

(** The shape every pass state has: one flag per store cell. *)
Definition pass_wf (n : nat) (st : PassState) : Prop :=
  length (zones st) = n ∧ length (used st) = n.

(** What one round of the inner loop does to the pass state, by case. *)
Inductive inner_step (threshold_pct : Q) (i j : nat) (st : PassState)
  : PassState → Prop :=
  | step_used :
      used st !! j = Some true →
      inner_step threshold_pct i j st st
  | step_other_type z1 z2 :
      used st !! j = Some false →
      zones st !! i = Some z1 → zones st !! j = Some z2 →
      type z1 ≠ type z2 →
      inner_step threshold_pct i j st st
  | step_apart z1 z2 :
      used st !! j = Some false →
      zones st !! i = Some z1 → zones st !! j = Some z2 →
      type z1 = type z2 → mergeable threshold_pct z1 z2 = false →
      inner_step threshold_pct i j st st
  | step_merge_into_z1 z1 z2 :
      used st !! j = Some false →
      zones st !! i = Some z1 → zones st !! j = Some z2 →
      type z1 = type z2 → mergeable threshold_pct z1 z2 = true →
      (origin_time z1 ≤ origin_time z2)%Z →
      inner_step threshold_pct i j st
        {| zones := <[i := absorb z1 z2 z1 z2]> (zones st);
           used := <[j := true]> (used st);
           result := result st; merged := true |}
  | step_merge_into_z2 z1 z2 :
      used st !! j = Some false →
      zones st !! i = Some z1 → zones st !! j = Some z2 →
      type z1 = type z2 → mergeable threshold_pct z1 z2 = true →
      (origin_time z2 < origin_time z1)%Z →
      inner_step threshold_pct i j st
        {| zones := <[j := absorb z1 z2 z2 z1]> (zones st);
           used := <[j := true]> (used st);
           result := result st; merged := true |}.

(** A property of zones that absorbing a same-kind zone keeps, whichever of
    the two is the base. *)
Definition merge_closed (P : Zone → Prop) : Prop :=
  ∀ z1 z2, P z1 → P z2 → type z1 = type z2 →
           P (absorb z1 z2 z1 z2) ∧ P (absorb z1 z2 z2 z1).

(** No pair of a list passes the merge test. *)
Definition no_mergeable_pair (threshold_pct : Q) (zones : list Zone) : Prop :=
  ∀ i j z1 z2, i < j → zones !! i = Some z1 → zones !! j = Some z2 →
               type z1 = type z2 → mergeable threshold_pct z1 z2 = false.

(** Invariant of the inner loop of cell [i], started in [st0], when it is
    about to look at cell [j]. *)
Definition inner_inv (threshold_pct : Q) (n i : nat) (st0 : PassState)
    (j : nat) (st : PassState) : Prop :=
  pass_wf n st ∧
  result st = result st0 ∧
  (∀ k, used st0 !! k = Some true → used st !! k = Some true) ∧
  (∀ k, k ≤ i → used st !! k = used st0 !! k) ∧
  (merged st0 = true → merged st = true) ∧
  (merged st = true →
     merged st0 = true ∨ ∃ j', i < j' ∧ used st !! j' = Some true) ∧
  (merged st = false →
     st = st0 ∧
     ∀ j' z1 z2, i < j' < j → used st0 !! j' = Some false →
                 zones st0 !! i = Some z1 → zones st0 !! j' = Some z2 →
                 type z1 = type z2 →
                 mergeable threshold_pct z1 z2 = false) ∧
  (∀ P, merge_closed P → Forall P (zones st0) → Forall P (zones st)).

(** Invariant of the outer loop of a pass over [zones0], when it is about to
    look at cell [i]. *)
Definition outer_inv (threshold_pct : Q) (zones0 : list Zone) (i : nat)
    (st : PassState) : Prop :=
  pass_wf (length zones0) st ∧
  length (result st) ≤ i ∧
  (merged st = true →
     ∃ j, used st !! j = Some true ∧ (j < i → length (result st) < i)) ∧
  (merged st = false →
     zones st = zones0 ∧ used st = replicate (length zones0) false ∧
     result st = take i zones0 ∧
     ∀ i' j z1 z2, i' < i → i' < j →
                   zones0 !! i' = Some z1 → zones0 !! j = Some z2 →
                   type z1 = type z2 →
                   mergeable threshold_pct z1 z2 = false) ∧
  (∀ P, merge_closed P → Forall P zones0 →
        Forall P (zones st) ∧ Forall P (result st)).

(** What no stage assigns after the constructor has run: the kind, the
    origin time, the status and the touches. *)
Definition zone_identity (z : Zone) : ZoneType * Z * Status * Z :=
  (type z, origin_time z, status z, touches z).

(** ** Properties of zones against the bars *)

(** No bar at or after the pivot index closes beyond the outer bound. *)
Definition unbroken (candles : list Candle) (z : Zone) : Prop :=
  ∀ i c, pivot_idx z ≤ i → candles !! i = Some c →
         (type z = resistance → ¬ (zone_high z < close c)%Q) ∧
         (type z = support → ¬ (close c < zone_low z)%Q).

(** The kind the initializer gives to a pivot. *)
Definition zone_type_of (k : PivotType) : ZoneType :=
  match k with High => resistance | Low => support end.

(** [z] carries the kind and the origin time of a zone that the initializer
    created from a pivot of [candles]. *)
Definition created_from (candles : list Candle) (z : Zone) : Prop :=
  ∃ pivots pivot z0,
    _find_pivots candles = Ok pivots ∧ pivot ∈ pivots ∧
    _init_zone_from_pivot pivot candles = Some z0 ∧
    type z0 = zone_type_of (ptype pivot) ∧
    type z = type z0 ∧ origin_time z = origin_time z0.

(** ** Nearest-zone selection *)

(** The candidate tests of the classification loop, read off its branches:
    a resistance zone meets the first or the third, a support zone the second
    or the fourth. *)
Definition is_resistance_candidate (current_price : Q) (z : Zone) : bool :=
  bool_decide (type z = resistance)
  && (Qgt_bool (zone_low z) current_price
      || (Qgt_bool (zone_high z) current_price
          && Qgt_bool current_price (zone_low z))).

Definition is_support_candidate (current_price : Q) (z : Zone) : bool :=
  bool_decide (type z = support)
  && (Qlt_bool (zone_high z) current_price
      || (Qlt_bool (zone_low z) current_price
          && Qlt_bool current_price (zone_high z))).

(** The candidate rule of the specification, section 4.6: the low is at or
    above the price, or the price is strictly inside the range; mirrored for
    support with the high. *)
Definition spec_resistance_candidate (price : Q) (z : Zone) : Prop :=
  type z = resistance ∧
  ((price <= zone_low z)%Q ∨ ((zone_low z < price)%Q ∧ (price < zone_high z)%Q)).

Definition spec_support_candidate (price : Q) (z : Zone) : Prop :=
  type z = support ∧
  ((zone_high z <= price)%Q ∨ ((zone_low z < price)%Q ∧ (price < zone_high z)%Q)).

(** The order a sort by [key] establishes. *)
Definition key_order (key : Zone → Q) (reverse : bool) (a b : Zone) : Prop :=
  if reverse then (key b <= key a)%Q else (key a <= key b)%Q.

(** [a] is not farther than [b] in signed percentage distance; false where
    the distance is undefined. *)
Definition dist_le (price : Q) (a b : Zone) : Prop :=
  match distance_pct a price, distance_pct b price with
  | Some x, Some y => (x <= y)%Q
  | _, _ => False
  end.

(** ** Zone initialisation, specification side *)

(** The body edge of a pivot bar that faces its wick, and the wick. *)
Definition body_inside_wick (pivot : Pivot) : Prop :=
  match ptype pivot with
  | High => (_get_body_high (candle pivot) < high (candle pivot))%Q
  | Low => (low (candle pivot) < _get_body_low (candle pivot))%Q
  end.

(** ** The merger as list rewriting *)

(** The zones of [zs] whose flag in [us] is not set. *)
Fixpoint live_cells (zs : list Zone) (us : list bool) : list Zone :=
  match zs, us with
  | z :: zs', u :: us' =>
      if u then live_cells zs' us' else z :: live_cells zs' us'
  | _, _ => []
  end.

(** The zones that a pass, about to look at cell [i], still holds: those
    already appended to [result] and the unused cells from [i] on. *)
Definition live (i : nat) (st : PassState) : list Zone :=
  result st ++ live_cells (drop i (zones st)) (drop i (used st)).

(** One merge as the list sees it.  An earlier zone [z1] and a later one
    [z2] of its kind pass the merge test; [z2] leaves the list; [z1] absorbs
    it if [z1] is not the younger, and stays as it is otherwise. *)
Inductive merge_move (threshold_pct : Q) : list Zone → list Zone → Prop :=
  | move_absorb l1 z1 l2 z2 l3 :
      type z1 = type z2 → mergeable threshold_pct z1 z2 = true →
      (origin_time z1 ≤ origin_time z2)%Z →
      merge_move threshold_pct (l1 ++ z1 :: l2 ++ z2 :: l3)
                               (l1 ++ absorb z1 z2 z1 z2 :: l2 ++ l3)
  | move_drop l1 z1 l2 z2 l3 :
      type z1 = type z2 → mergeable threshold_pct z1 z2 = true →
      (origin_time z2 < origin_time z1)%Z →
      merge_move threshold_pct (l1 ++ z1 :: l2 ++ z2 :: l3)
                               (l1 ++ z1 :: l2 ++ l3).

Definition total_strength (l : list Zone) : Z :=
  foldr (λ z acc, strength z + acc)%Z 0%Z l.

(** Origin times do not decrease along the list. *)
Definition chronological (l : list Zone) : Prop :=
  StronglySorted (λ a b, (origin_time a ≤ origin_time b)%Z) l.

(** [z] is of the kind of [z0] and its range contains that of [z0]. *)
Definition covers (z z0 : Zone) : Prop :=
  type z = type z0 ∧
  (zone_low z <= zone_low z0)%Q ∧ (zone_high z0 <= zone_high z)%Q.

(** ** The candidates of [detect_zones] *)

(** What one round of the construction loop of [detect_zones] appends. *)
Definition candidate_zone (candles : list Candle) (pivot : Pivot)
  : list Zone :=
  match _init_zone_from_pivot pivot candles with
  | None => []
  | Some zone =>
      if _is_broken zone candles then [] else [refine_spec zone candles]
  end.

(** Opening times do not decrease along the bars. *)
Definition bars_in_time_order (candles : list Candle) : Prop :=
  StronglySorted (λ a b, (open_time a ≤ open_time b)%Z) candles.

(** The zones [detect_zones] hands to the merger: those that the
    construction loop collects over the pivots of [_find_pivots]. *)
Definition candidates (candles : list Candle) : list Zone :=
  (seq 2 (length candles - 4) ≫= pivots_at candles)
    ≫= candidate_zone candles.

(** ** [Zone.contains_price] *)

Definition contains_price (z : Zone) (price threshold_pct : Q) : bool :=
  let margin := ((zone_high z - zone_low z) * threshold_pct)%Q in
  Qle_bool (zone_low z - margin) price && Qle_bool price (zone_high z + margin).

Definition default_contains_threshold_pct : Q := 0.005.

(** ** [detect_zones_multi_tf] *)

(** A [dict] with string keys, in insertion order.  [d[k] = v] replaces the
    value of a key already there and appends a new key. *)
Fixpoint dict_set {V} (d : list (string * V)) (k : string) (v : V)
  : list (string * V) :=
  match d with
  | [] => [(k, v)]
  | (k', v') :: d' =>
      if decide (k' = k) then (k, v) :: d' else (k', v') :: dict_set d' k v
  end.

(** Body of [for tf, candles in candles_by_tf.items()].  The callers pass
    [None] for a timeframe they could not fetch; [None] and the empty list
    are the falsy values. *)
Definition multi_tf_body (item : string * option (list Candle))
    (result : list (string * list Zone))
  : outcome (list (string * list Zone)) :=
  let (tf, candles) := item in
  match candles with
  | Some (c :: cs) =>
      zs <- detect_zones (c :: cs) ;; Ok (dict_set result tf zs)
  | Some [] | None => Ok (dict_set result tf [])
  end.

Definition detect_zones_multi_tf
    (candles_by_tf : list (string * option (list Candle)))
  : outcome (list (string * list Zone)) :=
  for_each candles_by_tf multi_tf_body [].

(** ** [_get_zone_tf] (bot) *)

(** The function compares objects by [id] only, so a zone object is its
    address here.  [for z in zones: if id(z) == id(zone): return tf] *)
Fixpoint holds_object (zone : nat) (zones : list nat) : bool :=
  match zones with
  | [] => false
  | z :: zones' => if (z =? zone)%nat then true else holds_object zone zones'
  end.

Fixpoint _get_zone_tf (zone : nat) (zones_by_tf : list (string * list nat))
  : string :=
  match zones_by_tf with
  | [] => "?"
  | (tf, zones) :: rest =>
      if holds_object zone zones then tf else _get_zone_tf zone rest
  end.

(** ** Sample data *)

Definition mk_candle (t : Z) (o h l c : Q) : Candle :=
  {| open_time := t; open := o; high := h; low := l; close := c;
     volume := 0 |}.

Definition mk_zone (t : ZoneType) (lo hi : Q) (ot : Z) (p : nat) : Zone :=
  {| type := t; zone_low := lo; zone_high := hi; origin_time := ot;
     strength := 1; touches := 0; status := active; pivot_idx := p |}.

(** * Properties *)

(** ** Order on prices *)

Lemma Qlt_bool_iff (x y : Q) : Qlt_bool x y = true ↔ (x < y)%Q.
Proof.
  unfold Qlt_bool. rewrite negb_true_iff. split.
  - intros H. apply Qnot_le_lt. intros Hle.
    apply Qle_bool_iff in Hle. congruence.
  - intros H. destruct (Qle_bool y x) eqn:E; [|done].
    apply Qle_bool_iff in E. lra.
Qed.

Lemma Qlt_bool_false (x y : Q) : Qlt_bool x y = false ↔ (y <= x)%Q.
Proof.
  unfold Qlt_bool. rewrite negb_false_iff. apply Qle_bool_iff.
Qed.

Lemma py_max_cases (a b : Q) :
  ((a < b)%Q ∧ py_max a b = b) ∨ ((b <= a)%Q ∧ py_max a b = a).
Proof.
  unfold py_max. destruct (Qlt_bool a b) eqn:E.
  - left. by apply Qlt_bool_iff in E.
  - right. by apply Qlt_bool_false in E.
Qed.

Lemma py_min_cases (a b : Q) :
  ((b < a)%Q ∧ py_min a b = b) ∨ ((a <= b)%Q ∧ py_min a b = a).
Proof.
  unfold py_min. destruct (Qlt_bool b a) eqn:E.
  - left. by apply Qlt_bool_iff in E.
  - right. by apply Qlt_bool_false in E.
Qed.

Lemma py_max_ge_l a b : (a <= py_max a b)%Q.
Proof. destruct (py_max_cases a b) as [[? ->]|[? ->]]; lra. Qed.
Lemma py_max_ge_r a b : (b <= py_max a b)%Q.
Proof. destruct (py_max_cases a b) as [[? ->]|[? ->]]; lra. Qed.
Lemma py_min_le_l a b : (py_min a b <= a)%Q.
Proof. destruct (py_min_cases a b) as [[? ->]|[? ->]]; lra. Qed.
Lemma py_min_le_r a b : (py_min a b <= b)%Q.
Proof. destruct (py_min_cases a b) as [[? ->]|[? ->]]; lra. Qed.


Lemma Qgt_bool_iff (x y : Q) : Qgt_bool x y = true ↔ (y < x)%Q.
Proof. apply Qlt_bool_iff. Qed.

Lemma Qge_bool_false (x y : Q) : Qge_bool x y = false ↔ (x < y)%Q.
Proof.
  unfold Qge_bool. rewrite <- Qlt_bool_iff. unfold Qlt_bool.
  by rewrite negb_true_iff.
Qed.

(** ** Loops that cannot raise *)

Lemma item_lookup {A} (l : list A) i x : l !! i = Some x → item l i = Ok x.
Proof. unfold item. by intros ->. Qed.

Lemma item_Ok {A} (l : list A) i x : item l i = Ok x ↔ l !! i = Some x.
Proof. unfold item. destruct (l !! i); split; intros H; by simplify_eq. Qed.

Lemma item_lt {A} (l : list A) i : i < length l → ∃ x, item l i = Ok x.
Proof.
  intros [x Hx]%lookup_lt_is_Some_2. exists x. by apply item_lookup.
Qed.

Lemma bind_Ok {A B} (m : outcome A) (k : A → outcome B) b :
  bind m k = Ok b ↔ ∃ a, m = Ok a ∧ k a = Ok b.
Proof.
  destruct m; simpl; split; try done; eauto;
    intros (a' & Heq & Hk); by simplify_eq.
Qed.

Lemma for_each_app {A S} (xs ys : list A) (body : A → S → outcome S) s :
  for_each (xs ++ ys) body s = (s' <- for_each xs body s ;; for_each ys body s').
Proof.
  revert s. induction xs as [|x xs IH]; intros s; simpl; [done|].
  destruct (body x s); simpl; auto.
Qed.

(** A loop whose every round appends to a list. *)
Lemma for_each_appends {A B} (xs : list A) (body : A → list B → outcome (list B))
    (f : A → list B) acc :
  (∀ x acc', x ∈ xs → body x acc' = Ok (acc' ++ f x)) →
  for_each xs body acc = Ok (acc ++ (xs ≫= f)).
Proof.
  revert acc. induction xs as [|x xs IH]; intros acc Hbody; simpl.
  - by rewrite app_nil_r.
  - rewrite Hbody by left. simpl. rewrite IH.
    + by rewrite <- app_assoc.
    + intros y acc' Hy. apply Hbody. by right.
Qed.

(** A loop invariant rule: an invariant kept by every round holds at the
    end, and the loop does not raise if no round does. *)
Lemma for_each_invariant {A S} (I : S → Prop) (xs : list A)
    (body : A → S → outcome S) s :
  I s →
  (∀ x s1, x ∈ xs → I s1 → ∃ s2, body x s1 = Ok s2 ∧ I s2) →
  ∃ s', for_each xs body s = Ok s' ∧ I s'.
Proof.
  revert s. induction xs as [|x xs IH]; intros s Hs Hbody; simpl.
  - eauto.
  - destruct (Hbody x s) as (s2 & -> & Hs2); [by left|done|]. simpl.
    apply IH; [done|]. intros y s1 Hy. apply Hbody. by right.
Qed.

(** ** Pivot detection *)

Lemma find_pivots_body_ok (candles : list Candle) i acc :
  2 ≤ i → i + 2 < length candles →
  find_pivots_body candles i acc = Ok (acc ++ pivots_at candles i).
Proof.
  intros Hlo Hhi.
  destruct (lookup_lt_is_Some_2 candles i) as [c Hc]; [lia|].
  destruct (lookup_lt_is_Some_2 candles (i - 1)) as [a Ha]; [lia|].
  destruct (lookup_lt_is_Some_2 candles (i - 2)) as [b Hb]; [lia|].
  destruct (lookup_lt_is_Some_2 candles (i + 1)) as [d Hd]; [lia|].
  destruct (lookup_lt_is_Some_2 candles (i + 2)) as [e He]; [lia|].
  unfold find_pivots_body, pivots_at, high_above, low_below, and_then, item.
  rewrite Hc, Ha, Hb, Hd, He. simpl.
  destruct (Qgt_bool (high c) (high a)), (Qgt_bool (high c) (high b)),
    (Qgt_bool (high c) (high d)), (Qgt_bool (high c) (high e)); simpl;
  destruct (Qlt_bool (low c) (low a)), (Qlt_bool (low c) (low b)),
    (Qlt_bool (low c) (low d)), (Qlt_bool (low c) (low e)); simpl;
  by rewrite <- ?app_assoc, ?app_nil_r.
Qed.

Lemma find_pivots_eq (candles : list Candle) :
  _find_pivots candles
  = Ok (seq 2 (length candles - 4) ≫= pivots_at candles).
Proof.
  unfold _find_pivots, py_range.
  replace (length candles - 2 - 2) with (length candles - 4) by lia.
  rewrite (for_each_appends _ _ (pivots_at candles)); [done|].
  intros i acc' [Hi1 Hi2]%elem_of_seq. apply find_pivots_body_ok; lia.
Qed.

Lemma elem_of_pivots_at (candles : list Candle) i p :
  p ∈ pivots_at candles i → idx p = i.
Proof.
  unfold pivots_at.
  repeat (case_match; try (intros []%elem_of_nil));
    rewrite ?elem_of_app, ?list_elem_of_singleton, ?elem_of_nil;
    intros Hin; destruct_or?; by simplify_eq.
Qed.

Lemma window_lookups (candles : list Candle) i (P : Candle → Prop) :
  2 ≤ i →
  (∀ k, k ∈ [i - 2; i - 1; i + 1; i + 2] → ∃ nb, candles !! k = Some nb ∧ P nb)
  ↔ ∃ a b d e, candles !! (i - 1) = Some a ∧ candles !! (i - 2) = Some b ∧
               candles !! (i + 1) = Some d ∧ candles !! (i + 2) = Some e ∧
               P a ∧ P b ∧ P d ∧ P e.
Proof.
  intros Hi. split.
  - intros H.
    destruct (H (i - 1)) as (a & ? & ?); [rewrite !elem_of_cons; auto 10|].
    destruct (H (i - 2)) as (b & ? & ?); [rewrite !elem_of_cons; auto 10|].
    destruct (H (i + 1)) as (d & ? & ?); [rewrite !elem_of_cons; auto 10|].
    destruct (H (i + 2)) as (e & ? & ?); [rewrite !elem_of_cons; auto 10|].
    by exists a, b, d, e.
  - intros (a & b & d & e & Ha & Hb & Hd & He & ? & ? & ? & ?) k Hk.
    rewrite !elem_of_cons, elem_of_nil in Hk.
    destruct Hk as [->|[->|[->|[->|[]]]]]; eauto.
Qed.

Lemma pivots_at_high (candles : list Candle) i c :
  2 ≤ i →
  {| idx := i; ptype := High; candle := c |} ∈ pivots_at candles i
  ↔ is_pivot_high candles i c.
Proof.
  intros Hi. unfold is_pivot_high.
  rewrite (window_lookups candles i (λ nb, (high nb < high c)%Q)) by done.
  unfold pivots_at. split.
  - intros H.
    destruct (candles !! i) as [c'|] eqn:Hc; [|by apply elem_of_nil in H].
    destruct (candles !! (i - 1)) as [a|] eqn:Ha; [|by apply elem_of_nil in H].
    destruct (candles !! (i - 2)) as [b|] eqn:Hb; [|by apply elem_of_nil in H].
    destruct (candles !! (i + 1)) as [d|] eqn:Hd; [|by apply elem_of_nil in H].
    destruct (candles !! (i + 2)) as [e|] eqn:He; [|by apply elem_of_nil in H].
    apply lookup_lt_Some in He.
    apply elem_of_app in H as [H|H].
    + destruct (Qgt_bool (high c') (high a)) eqn:E1; [|by apply elem_of_nil in H].
      destruct (Qgt_bool (high c') (high b)) eqn:E2; [|by apply elem_of_nil in H].
      destruct (Qgt_bool (high c') (high d)) eqn:E3; [|by apply elem_of_nil in H].
      destruct (Qgt_bool (high c') (high e)) eqn:E4; [|by apply elem_of_nil in H].
      simpl in H. apply list_elem_of_singleton in H. simplify_eq.
      apply Qgt_bool_iff in E1, E2, E3, E4.
      split; [done|]. split; [lia|]. split; [done|]. by exists a, b, d, e.
    + case_match; [|by apply elem_of_nil in H].
      apply list_elem_of_singleton in H. discriminate.
  - intros (_ & _ & -> & a & b & d & e & -> & -> & -> & -> & Ha & Hb & Hd & He).
    apply Qgt_bool_iff in Ha, Hb, Hd, He. rewrite Ha, Hb, Hd, He.
    apply elem_of_app. left. by left.
Qed.

Lemma pivots_at_low (candles : list Candle) i c :
  2 ≤ i →
  {| idx := i; ptype := Low; candle := c |} ∈ pivots_at candles i
  ↔ is_pivot_low candles i c.
Proof.
  intros Hi. unfold is_pivot_low.
  rewrite (window_lookups candles i (λ nb, (low c < low nb)%Q)) by done.
  unfold pivots_at. split.
  - intros H.
    destruct (candles !! i) as [c'|] eqn:Hc; [|by apply elem_of_nil in H].
    destruct (candles !! (i - 1)) as [a|] eqn:Ha; [|by apply elem_of_nil in H].
    destruct (candles !! (i - 2)) as [b|] eqn:Hb; [|by apply elem_of_nil in H].
    destruct (candles !! (i + 1)) as [d|] eqn:Hd; [|by apply elem_of_nil in H].
    destruct (candles !! (i + 2)) as [e|] eqn:He; [|by apply elem_of_nil in H].
    apply lookup_lt_Some in He.
    apply elem_of_app in H as [H|H].
    + case_match; [|by apply elem_of_nil in H].
      apply list_elem_of_singleton in H. discriminate.
    + destruct (Qlt_bool (low c') (low a)) eqn:E1; [|by apply elem_of_nil in H].
      destruct (Qlt_bool (low c') (low b)) eqn:E2; [|by apply elem_of_nil in H].
      destruct (Qlt_bool (low c') (low d)) eqn:E3; [|by apply elem_of_nil in H].
      destruct (Qlt_bool (low c') (low e)) eqn:E4; [|by apply elem_of_nil in H].
      simpl in H. apply list_elem_of_singleton in H. simplify_eq.
      apply Qlt_bool_iff in E1, E2, E3, E4.
      split; [done|]. split; [lia|]. split; [done|]. by exists a, b, d, e.
  - intros (_ & _ & -> & a & b & d & e & -> & -> & -> & -> & Ha & Hb & Hd & He).
    apply Qlt_bool_iff in Ha, Hb, Hd, He. rewrite Ha, Hb, Hd, He.
    apply elem_of_app. right. by left.
Qed.

Lemma pivots_in_index_order (candles : list Candle) a k :
  StronglySorted le (idx <$> (seq a k ≫= pivots_at candles)).
Proof.
  revert a. induction k as [|k IH]; intros a; simpl; [constructor|].
  rewrite fmap_app. apply StronglySorted_app_2; [| |apply IH].
  - intros x y (p & -> & Hp)%list_elem_of_fmap (q & -> & Hq)%list_elem_of_fmap.
    apply elem_of_pivots_at in Hp as ->.
    apply list_elem_of_bind in Hq as (j & Hq & [Hj _]%elem_of_seq).
    apply elem_of_pivots_at in Hq as ->. lia.
  - assert (Forall (λ p, idx p = a) (pivots_at candles a)) as Hall.
    { apply Forall_forall. intros p. apply elem_of_pivots_at. }
    induction Hall as [|p l Hp Hl IHl]; simpl; [constructor|].
    constructor; [done|]. apply Forall_fmap.
    eapply Forall_impl; [exact Hl|]. simpl. intros q ->. lia.
Qed.

Lemma find_pivots_elem (candles : list Candle) p :
  p ∈ (seq 2 (length candles - 4) ≫= pivots_at candles)
  ↔ 2 ≤ idx p ∧ idx p + 3 ≤ length candles ∧ p ∈ pivots_at candles (idx p).
Proof.
  rewrite list_elem_of_bind. split.
  - intros (j & Hp & [Hj1 Hj2]%elem_of_seq).
    pose proof (elem_of_pivots_at _ _ _ Hp) as ->. repeat split; [done|lia|done].
  - intros (H1 & H2 & Hp). exists (idx p). split; [done|].
    apply elem_of_seq. lia.
Qed.

(** C7. [_find_pivots] never raises; it reports a pivot-high at index [i]
    exactly when [2 <= i <= n-3] and the high of bar [i] is strictly greater
    than the highs of bars [i-2], [i-1], [i+1], [i+2], and a pivot-low under
    the mirrored strict test on lows (so a tie with a neighbour never
    qualifies); both kinds are reported when both tests hold at one index;
    the list is ordered by index; fewer than 5 bars give no pivot. *)
Theorem find_pivots_spec (candles : list Candle) :
  ∃ pivots,
    _find_pivots candles = Ok pivots ∧
    (∀ i c, {| idx := i; ptype := High; candle := c |} ∈ pivots
            ↔ is_pivot_high candles i c) ∧
    (∀ i c, {| idx := i; ptype := Low; candle := c |} ∈ pivots
            ↔ is_pivot_low candles i c) ∧
    (∀ i c, is_pivot_high candles i c → is_pivot_low candles i c →
            {| idx := i; ptype := High; candle := c |} ∈ pivots ∧
            {| idx := i; ptype := Low; candle := c |} ∈ pivots) ∧
    StronglySorted le (idx <$> pivots) ∧
    (length candles < 5 → pivots = []).
Proof.
  exists (seq 2 (length candles - 4) ≫= pivots_at candles).
  assert (∀ i c, {| idx := i; ptype := High; candle := c |}
                   ∈ (seq 2 (length candles - 4) ≫= pivots_at candles)
                 ↔ is_pivot_high candles i c) as Hhigh.
  { intros i c. rewrite find_pivots_elem. simpl. split.
    - intros (Hi & _ & Hp). by apply pivots_at_high.
    - intros Hp. pose proof Hp as (Hi & Hn & _).
      repeat split; [done..|]. by apply pivots_at_high. }
  assert (∀ i c, {| idx := i; ptype := Low; candle := c |}
                   ∈ (seq 2 (length candles - 4) ≫= pivots_at candles)
                 ↔ is_pivot_low candles i c) as Hlow.
  { intros i c. rewrite find_pivots_elem. simpl. split.
    - intros (Hi & _ & Hp). by apply pivots_at_low.
    - intros Hp. pose proof Hp as (Hi & Hn & _).
      repeat split; [done..|]. by apply pivots_at_low. }
  split; [apply find_pivots_eq|].
  split; [exact Hhigh|]. split; [exact Hlow|].
  split; [intros i c Hh Hl; split; [by apply Hhigh|by apply Hlow]|].
  split; [apply pivots_in_index_order|].
  intros Hn. by replace (length candles - 4) with 0 by lia.
Qed.

(** Both kinds at one index: an outside bar in the middle of five. *)
Example find_pivots_both_kinds :
  _find_pivots [mk_candle 0 2 3 1 2; mk_candle 1 2 3 1 2; mk_candle 2 2 5 0 2;
                mk_candle 3 2 3 1 2; mk_candle 4 2 3 1 2]
  = Ok [{| idx := 2; ptype := High; candle := mk_candle 2 2 5 0 2 |};
        {| idx := 2; ptype := Low; candle := mk_candle 2 2 5 0 2 |}].
Proof. reflexivity. Qed.

(** Scenario A of the specification: highs 100, 101, 105, 102, 99. *)
Example find_pivots_scenario_A :
  _find_pivots [mk_candle 0 1 100 1 1; mk_candle 1 1 101 1 1;
                mk_candle 2 1 105 1 1; mk_candle 3 1 102 1 1;
                mk_candle 4 1 99 1 1]
  = Ok [{| idx := 2; ptype := High; candle := mk_candle 2 1 105 1 1 |}].
Proof. reflexivity. Qed.

(** A tie with a neighbour disqualifies the bar. *)
Example find_pivots_tie :
  _find_pivots [mk_candle 0 1 100 1 1; mk_candle 1 1 105 1 1;
                mk_candle 2 1 105 1 1; mk_candle 3 1 102 1 1;
                mk_candle 4 1 99 1 1]
  = Ok [].
Proof. reflexivity. Qed.

(** C9. On fewer than 5 bars [detect_zones] returns the empty list and
    [_find_pivots] the empty pivot list; neither raises. *)
Theorem detect_zones_short (candles : list Candle) :
  length candles < 5 →
  detect_zones candles = Ok [] ∧ _find_pivots candles = Ok [].
Proof.
  intros Hn. split.
  - unfold detect_zones.
    destruct (Nat.ltb_spec (length candles) 5) as [_|?]; [|lia].
    by rewrite orb_true_r.
  - rewrite find_pivots_eq. by replace (length candles - 4) with 0 by lia.
Qed.

Lemma detect_zones_short_witness :
  detect_zones [mk_candle 0 2 3 1 2; mk_candle 1 2 5 0 2] = Ok [] ∧
  _find_pivots [mk_candle 0 2 3 1 2; mk_candle 1 2 5 0 2] = Ok [].
Proof.
  apply (detect_zones_short [mk_candle 0 2 3 1 2; mk_candle 1 2 5 0 2]).
  simpl. lia.
Defined.

(** ** Refinement *)

Lemma fold_py_max_ge (l : list Q) acc : (acc <= fold_left py_max l acc)%Q.
Proof.
  revert acc. induction l as [|x l IH]; intros acc; simpl; [lra|].
  pose proof (IH (py_max acc x)). pose proof (py_max_ge_l acc x). lra.
Qed.

Lemma fold_py_min_le (l : list Q) acc : (fold_left py_min l acc <= acc)%Q.
Proof.
  revert acc. induction l as [|x l IH]; intros acc; simpl; [lra|].
  pose proof (IH (py_min acc x)). pose proof (py_min_le_l acc x). lra.
Qed.

Lemma refine_resistance_walk_eq zone (candles : list Candle) k p acc :
  k = length candles - p →
  ∃ e, refine_resistance_walk zone candles (seq p k) acc
       = Ok (fold_left py_max
               (close <$> run_before (stops_resistance zone) (drop p candles))
               acc, e).
Proof.
  revert p acc. induction k as [|k IH]; intros p acc Hk; simpl.
  - rewrite drop_ge by lia. simpl. eauto.
  - destruct (lookup_lt_is_Some_2 candles p) as [c Hc]; [lia|].
    rewrite (item_lookup _ _ _ Hc). simpl.
    rewrite (drop_S _ _ _ Hc). simpl. unfold stops_resistance.
    destruct (Qgt_bool (high c) (zone_high zone)); simpl; [eauto|].
    destruct (Qgt_bool (close c) (zone_high zone)); simpl; [eauto|].
    apply IH. lia.
Qed.

Lemma refine_support_walk_eq zone (candles : list Candle) k p acc :
  k = length candles - p →
  ∃ e, refine_support_walk zone candles (seq p k) acc
       = Ok (fold_left py_min
               (close <$> run_before (stops_support zone) (drop p candles))
               acc, e).
Proof.
  revert p acc. induction k as [|k IH]; intros p acc Hk; simpl.
  - rewrite drop_ge by lia. simpl. eauto.
  - destruct (lookup_lt_is_Some_2 candles p) as [c Hc]; [lia|].
    rewrite (item_lookup _ _ _ Hc). simpl.
    rewrite (drop_S _ _ _ Hc). simpl. unfold stops_support.
    destruct (Qlt_bool (low c) (zone_low zone)); simpl; [eauto|].
    destruct (Qlt_bool (close c) (zone_low zone)); simpl; [eauto|].
    apply IH. lia.
Qed.

Lemma refine_zone_eq (zone : Zone) (candles : list Candle) :
  _refine_zone zone candles = Ok (refine_spec zone candles).
Proof.
  unfold _refine_zone, refine_spec, py_range. destruct (type zone).
  - destruct (refine_support_walk_eq zone candles
                (length candles - pivot_idx zone) (pivot_idx zone)
                (zone_high zone) eq_refl) as [e ->].
    simpl. by case_match.
  - destruct (refine_resistance_walk_eq zone candles
                (length candles - pivot_idx zone) (pivot_idx zone)
                (zone_low zone) eq_refl) as [e ->].
    simpl. by case_match.
Qed.

(** C8. On a zone with [zone_low < zone_high], [_refine_zone] returns (without
    raising) the zone the specification describes: the running extreme of the
    closes from the pivot index up to, and excluding, the first bar whose wick
    exceeds the outer bound or whose close breaches it becomes the inner
    bound only if it stays strictly inside the outer bound.  The result still
    has [zone_low < zone_high], the inner bound only moves toward the outer
    one, and the outer bound, kind, origin time, strength, pivot index,
    touches and status are unchanged. *)
Theorem refine_zone_spec (zone : Zone) (candles : list Candle) :
  (zone_low zone < zone_high zone)%Q →
  ∃ zone',
    _refine_zone zone candles = Ok zone' ∧
    zone' = refine_spec zone candles ∧
    (zone_low zone' < zone_high zone')%Q ∧
    (type zone = resistance →
       zone_high zone' = zone_high zone ∧
       (zone_low zone <= zone_low zone')%Q) ∧
    (type zone = support →
       zone_low zone' = zone_low zone ∧
       (zone_high zone' <= zone_high zone)%Q) ∧
    type zone' = type zone ∧ origin_time zone' = origin_time zone ∧
    strength zone' = strength zone ∧ pivot_idx zone' = pivot_idx zone ∧
    touches zone' = touches zone ∧ status zone' = status zone.
Proof.
  intros Hlt. exists (refine_spec zone candles).
  split; [apply refine_zone_eq|]. split; [done|].
  unfold refine_spec. destruct (type zone) eqn:Ht.
  - set (extreme := fold_left py_min _ _).
    pose proof (fold_py_min_le
      (close <$> run_before (stops_support zone)
                   (drop (pivot_idx zone) candles)) (zone_high zone)) as Hle.
    fold extreme in Hle.
    destruct (Qgt_bool extreme (zone_low zone)) eqn:E; simpl.
    + apply Qgt_bool_iff in E. repeat split; intros; try done; lra.
    + rewrite Ht. repeat split; intros; try done; lra.
  - set (extreme := fold_left py_max _ _).
    pose proof (fold_py_max_ge
      (close <$> run_before (stops_resistance zone)
                   (drop (pivot_idx zone) candles)) (zone_low zone)) as Hge.
    fold extreme in Hge.
    destruct (Qlt_bool extreme (zone_high zone)) eqn:E; simpl.
    + apply Qlt_bool_iff in E. repeat split; intros; try done; lra.
    + rewrite Ht. repeat split; intros; try done; lra.
Qed.

Lemma refine_zone_spec_witness :
  ∃ zone',
    _refine_zone (mk_zone resistance 103 107 0 1)
      [mk_candle 0 100 104 99 101; mk_candle 1 103 107 100 101;
       mk_candle 2 101 106 100 105; mk_candle 3 105 108 104 104] = Ok zone' ∧
    zone_low zone' = 105%Q ∧ zone_high zone' = 107%Q ∧
    (zone_low zone' < zone_high zone')%Q.
Proof.
  destruct (refine_zone_spec (mk_zone resistance 103 107 0 1)
      [mk_candle 0 100 104 99 101; mk_candle 1 103 107 100 101;
       mk_candle 2 101 106 100 105; mk_candle 3 105 108 104 104])
    as (zone' & Hrun & Hspec & Hlt & _).
  - reflexivity.
  - exists zone'. split; [exact Hrun|]. rewrite Hspec.
    split; [reflexivity|]. split; reflexivity.
Defined.

(** ** Breakout check against the refinement walk *)

Lemma is_broken_loop_false_resistance (zone : Zone) (cs : list Candle) :
  type zone = resistance → is_broken_loop zone cs = false →
  ∀ c, c ∈ cs → Qgt_bool (close c) (zone_high zone) = false.
Proof.
  intros Ht. induction cs as [|c0 cs IH]; simpl; intros Hb c Hc.
  - by apply elem_of_nil in Hc.
  - rewrite Ht in Hb. simpl in Hb.
    destruct (Qgt_bool (close c0) (zone_high zone)) eqn:E; [done|].
    simpl in Hb. apply elem_of_cons in Hc as [->|Hc]; [done|]. by apply IH.
Qed.

Lemma is_broken_loop_false_support (zone : Zone) (cs : list Candle) :
  type zone = support → is_broken_loop zone cs = false →
  ∀ c, c ∈ cs → Qlt_bool (close c) (zone_low zone) = false.
Proof.
  intros Ht. induction cs as [|c0 cs IH]; simpl; intros Hb c Hc.
  - by apply elem_of_nil in Hc.
  - rewrite Ht in Hb. simpl in Hb.
    destruct (Qlt_bool (close c0) (zone_low zone)) eqn:E; [done|].
    apply elem_of_cons in Hc as [->|Hc]; [done|]. by apply IH.
Qed.

Lemma resistance_walk_no_close_break zone (candles : list Candle) k p acc :
  (∀ c, c ∈ drop p candles → Qgt_bool (close c) (zone_high zone) = false) →
  refine_resistance_walk_no_close_break zone candles (seq p k) acc
  = refine_resistance_walk zone candles (seq p k) acc ∧
  ∀ v e, refine_resistance_walk zone candles (seq p k) acc = Ok (v, e) →
         e ≠ CloseBreak.
Proof.
  revert p acc. induction k as [|k IH]; intros p acc Hcl; simpl.
  - split; [done|]. by intros v e [= _ <-].
  - unfold item. destruct (candles !! p) as [c|] eqn:Hc; simpl; [|done].
    rewrite (drop_S _ _ _ Hc) in Hcl.
    rewrite (Hcl c) by left.
    destruct (Qgt_bool (high c) (zone_high zone)).
    + split; [done|]. by intros v e [= _ <-].
    + apply IH. intros c' Hc'. apply Hcl. by right.
Qed.

Lemma support_walk_no_close_break zone (candles : list Candle) k p acc :
  (∀ c, c ∈ drop p candles → Qlt_bool (close c) (zone_low zone) = false) →
  refine_support_walk_no_close_break zone candles (seq p k) acc
  = refine_support_walk zone candles (seq p k) acc ∧
  ∀ v e, refine_support_walk zone candles (seq p k) acc = Ok (v, e) →
         e ≠ CloseBreak.
Proof.
  revert p acc. induction k as [|k IH]; intros p acc Hcl; simpl.
  - split; [done|]. by intros v e [= _ <-].
  - unfold item. destruct (candles !! p) as [c|] eqn:Hc; simpl; [|done].
    rewrite (drop_S _ _ _ Hc) in Hcl.
    rewrite (Hcl c) by left.
    destruct (Qlt_bool (low c) (zone_low zone)).
    + split; [done|]. by intros v e [= _ <-].
    + apply IH. intros c' Hc'. apply Hcl. by right.
Qed.

Lemma refine_exit_total (zone : Zone) (candles : list Candle) :
  ∃ e, refine_exit zone candles = Ok e.
Proof.
  unfold refine_exit, py_range. destruct (type zone).
  - destruct (refine_support_walk_eq zone candles
                (length candles - pivot_idx zone) (pivot_idx zone)
                (zone_high zone) eq_refl) as [e ->]. simpl. eauto.
  - destruct (refine_resistance_walk_eq zone candles
                (length candles - pivot_idx zone) (pivot_idx zone)
                (zone_low zone) eq_refl) as [e ->]. simpl. eauto.
Qed.

(** C10. On a zone that [_is_broken] accepts, the walk of [_refine_zone]
    ends (it does not raise) and never through the close-breach [break]: it
    ends at a wick [break] or at the end of the bars.  [_refine_zone] with
    that branch deleted returns the same result. *)
Theorem close_break_never_taken (zone : Zone) (candles : list Candle) :
  _is_broken zone candles = false →
  (∃ e, refine_exit zone candles = Ok e ∧ e ≠ CloseBreak) ∧
  _refine_zone_no_close_break zone candles = _refine_zone zone candles.
Proof.
  unfold _is_broken. intros Hb.
  destruct (refine_exit_total zone candles) as [e He].
  unfold refine_exit, _refine_zone_no_close_break, _refine_zone, py_range in *.
  destruct (type zone) eqn:Ht.
  - pose proof (is_broken_loop_false_support _ _ Ht Hb) as Hcl.
    destruct (support_walk_no_close_break zone candles
                (length candles - pivot_idx zone) (pivot_idx zone)
                (zone_high zone) Hcl) as [Heq Hne].
    rewrite Heq. split; [|done]. exists e. split; [done|].
    apply bind_Ok in He as ([v e'] & Hw & [= <-]). by eapply Hne.
  - pose proof (is_broken_loop_false_resistance _ _ Ht Hb) as Hcl.
    destruct (resistance_walk_no_close_break zone candles
                (length candles - pivot_idx zone) (pivot_idx zone)
                (zone_low zone) Hcl) as [Heq Hne].
    rewrite Heq. split; [|done]. exists e. split; [done|].
    apply bind_Ok in He as ([v e'] & Hw & [= <-]). by eapply Hne.
Qed.

Lemma close_break_never_taken_witness :
  refine_exit (mk_zone resistance 103 107 0 1)
    [mk_candle 0 100 104 99 101; mk_candle 1 103 107 100 101;
     mk_candle 2 101 106 100 105; mk_candle 3 105 108 104 104]
  = Ok WickBreak ∧
  _refine_zone_no_close_break (mk_zone resistance 103 107 0 1)
    [mk_candle 0 100 104 99 101; mk_candle 1 103 107 100 101;
     mk_candle 2 101 106 100 105; mk_candle 3 105 108 104 104]
  = _refine_zone (mk_zone resistance 103 107 0 1)
    [mk_candle 0 100 104 99 101; mk_candle 1 103 107 100 101;
     mk_candle 2 101 106 100 105; mk_candle 3 105 108 104 104].
Proof.
  destruct (close_break_never_taken (mk_zone resistance 103 107 0 1)
    [mk_candle 0 100 104 99 101; mk_candle 1 103 107 100 101;
     mk_candle 2 101 106 100 105; mk_candle 3 105 108 104 104])
    as [_ Heq].
  - reflexivity.
  - split; [reflexivity|exact Heq].
Defined.

(** The hypothesis of C10 matters: on a zone the breakout check rejects, the
    close-breach [break] is the one that ends the walk. *)
Example close_break_taken_when_broken :
  _is_broken (mk_zone resistance 103 107 0 1)
    [mk_candle 0 100 104 99 101; mk_candle 1 103 107 100 101;
     mk_candle 2 101 106 100 108] = true ∧
  refine_exit (mk_zone resistance 103 107 0 1)
    [mk_candle 0 100 104 99 101; mk_candle 1 103 107 100 101;
     mk_candle 2 101 106 100 108] = Ok CloseBreak.
Proof. split; reflexivity. Qed.

(** ** The merge pass *)

(** A loop over a range keeps an invariant that may mention the index. *)
Lemma for_range_invariant {S} (I : nat → S → Prop) a k
    (body : nat → S → outcome S) s :
  I a s →
  (∀ i s1, a ≤ i < a + k → I i s1 → ∃ s2, body i s1 = Ok s2 ∧ I (Datatypes.S i) s2) →
  ∃ s', for_each (seq a k) body s = Ok s' ∧ I (a + k) s'.
Proof.
  revert a s. induction k as [|k IH]; intros a s Hs Hbody; simpl.
  - exists s. by rewrite Nat.add_0_r.
  - destruct (Hbody a s) as (s2 & -> & Hs2); [lia|done|]. simpl.
    replace (a + Datatypes.S k) with (Datatypes.S a + k) by lia.
    apply IH; [done|]. intros i s1 Hi. apply Hbody. lia.
Qed.

Section merge_pass.
Variable threshold_pct : Q.

Lemma merge_inner_body_step n i j st :
  pass_wf n st → i < n → j < n →
  ∃ st', merge_inner_body threshold_pct i j st = Ok st' ∧
         inner_step threshold_pct i j st st'.
Proof.
  intros [Hz Hu] Hi Hj. unfold merge_inner_body.
  destruct (lookup_lt_is_Some_2 (used st) j) as [u Hju]; [lia|].
  destruct (lookup_lt_is_Some_2 (zones st) i) as [z1 Hz1]; [lia|].
  destruct (lookup_lt_is_Some_2 (zones st) j) as [z2 Hz2]; [lia|].
  rewrite (item_lookup _ _ _ Hju). simpl. destruct u.
  { exists st. split; [done|]. by constructor. }
  rewrite (item_lookup _ _ _ Hz1), (item_lookup _ _ _ Hz2). simpl.
  case_bool_decide as Ht; simpl.
  2: { exists st. split; [done|]. by eapply step_other_type. }
  destruct (mergeable threshold_pct z1 z2) eqn:Hm.
  2: { exists st. split; [done|]. by eapply step_apart. }
  unfold set_item.
  destruct (Z.leb_spec (origin_time z1) (origin_time z2)) as [Hot|Hot].
  - rewrite decide_True by lia. simpl. rewrite decide_True by lia. simpl.
    eexists. split; [done|]. by eapply step_merge_into_z1.
  - rewrite decide_True by lia. simpl. rewrite decide_True by lia. simpl.
    eexists. split; [done|]. by eapply step_merge_into_z2.
Qed.

Lemma inner_step_wf n i j st st' :
  inner_step threshold_pct i j st st' → pass_wf n st → pass_wf n st'.
Proof.
  intros Hstep [Hz Hu].
  destruct Hstep; split; simpl; by rewrite ?length_insert.
Qed.

Lemma inner_step_result i j st st' :
  inner_step threshold_pct i j st st' → result st' = result st.
Proof. by destruct 1. Qed.

Lemma inner_step_used_mono i j st st' k :
  inner_step threshold_pct i j st st' →
  used st !! k = Some true → used st' !! k = Some true.
Proof.
  destruct 1; simpl; try done; intros Hk;
    (destruct (decide (j = k)) as [->|];
     [rewrite list_lookup_insert_eq; [done|by eapply lookup_lt_Some]
     |by rewrite list_lookup_insert_ne]).
Qed.

Lemma inner_step_used_other i j st st' k :
  inner_step threshold_pct i j st st' → k ≠ j →
  used st' !! k = used st !! k.
Proof. destruct 1; simpl; try done; intros; by rewrite list_lookup_insert_ne. Qed.

Lemma inner_step_merged i j st st' :
  inner_step threshold_pct i j st st' →
  (st' = st) ∨ (merged st' = true ∧ used st' !! j = Some true).
Proof.
  destruct 1; auto; right; simpl; (split; [done|]);
    (rewrite list_lookup_insert_eq; [done|by eapply lookup_lt_Some]).
Qed.

Lemma inner_step_closed (P : Zone → Prop) i j st st' :
  merge_closed P → inner_step threshold_pct i j st st' →
  Forall P (zones st) → Forall P (zones st').
Proof.
  intros HP Hstep Hall. destruct Hstep as [| | |z1 z2 ? H1 H2 Ht|z1 z2 ? H1 H2 Ht];
    simpl; try done.
  - apply Forall_insert; [done|].
    rewrite Forall_lookup in Hall. eapply HP; eauto.
  - apply Forall_insert; [done|].
    rewrite Forall_lookup in Hall. eapply HP; eauto.
Qed.
Lemma inner_inv_step n i st0 j s1 s2 :
  i < j → inner_inv threshold_pct n i st0 j s1 →
  inner_step threshold_pct i j s1 s2 →
  inner_inv threshold_pct n i st0 (S j) s2.
Proof.
  intros Hij (Hwf & Hres & Hmono & Hlow & Hm1 & Hm2 & Hm3 & HP) Hstep.
  pose proof (inner_step_merged _ _ _ _ Hstep) as Hcase.
  split; [by eapply inner_step_wf|].
  split; [by rewrite (inner_step_result _ _ _ _ Hstep)|].
  split; [intros k Hk; eapply inner_step_used_mono; eauto|].
  split.
  { intros k Hk. rewrite (inner_step_used_other _ _ _ _ k Hstep) by lia.
    by apply Hlow. }
  split.
  { intros Hm. destruct Hcase as [->|[? _]]; auto. }
  split.
  { intros Hm. destruct Hcase as [->|[_ Hj]]; [by apply Hm2|].
    right. exists j. split; [lia|done]. }
  split.
  { intros Hm.
    destruct Hstep as [Hu'|z1' z2' Hu' H1' H2' Ht'|z1' z2' Hu' H1' H2' Ht' Hm'| |];
      simpl in Hm; try done;
      destruct (Hm3 Hm) as [Heq Hpairs]; subst s1; (split; [done|]);
      intros j' z1 z2 Hj' Hu H1 H2 Ht;
      (destruct (decide (j' = j)) as [->|]; [|apply (Hpairs j'); auto; lia]);
      by simplify_eq. }
  intros P HPc Hall. eapply inner_step_closed; eauto.
Qed.

Lemma merge_inner_loop n i st :
  pass_wf n st → i < n →
  ∃ st', for_each (py_range (i + 1) (length (zones st)))
           (merge_inner_body threshold_pct i) st = Ok st' ∧
         inner_inv threshold_pct n i st n st'.
Proof.
  intros Hwf Hi. pose proof Hwf as [Hz _]. unfold py_range. rewrite Hz.
  destruct (for_range_invariant (inner_inv threshold_pct n i st) (i + 1)
              (n - (i + 1)) (merge_inner_body threshold_pct i) st)
    as (st' & Hrun & Hinv).
  - split; [done|]. split; [done|]. split; [done|]. split; [done|].
    split; [done|]. split; [auto|]. split; [|done].
    intros _. split; [done|]. intros; lia.
  - intros j s1 Hj Hinv.
    destruct (merge_inner_body_step n i j s1) as (s2 & Hrun & Hstep);
      [apply Hinv|lia|lia|].
    exists s2. split; [done|]. eapply inner_inv_step; eauto. lia.
  - exists st'. split; [done|].
    by replace (i + 1 + (n - (i + 1))) with n in Hinv by lia.
Qed.

Lemma merge_outer_body_inv zones0 i st :
  i < length zones0 → outer_inv threshold_pct zones0 i st →
  ∃ st', merge_outer_body threshold_pct i st = Ok st' ∧
         outer_inv threshold_pct zones0 (S i) st'.
Proof.
  intros Hi (Hwf & Hlen & Hm1 & Hm0 & HP). pose proof Hwf as [Hz Hu].
  unfold merge_outer_body.
  destruct (lookup_lt_is_Some_2 (used st) i) as [u Hiu]; [lia|].
  rewrite (item_lookup _ _ _ Hiu). simpl. destruct u.
  { exists st. split; [done|]. split; [done|]. split; [lia|].
    split.
    { intros Hm. destruct (Hm1 Hm) as (j & Hj & _). exists j.
      split; [done|lia]. }
    split; [|done].
    intros Hm. destruct (Hm0 Hm) as (_ & Hrep & _).
    rewrite Hrep, lookup_replicate_2 in Hiu by done. discriminate. }
  destruct (merge_inner_loop (length zones0) i st Hwf Hi)
    as (st1 & -> & Hwf1 & Hres1 & Hmono & Hlow & Hk1 & Hk2 & Hk3 & HP1).
  simpl. pose proof Hwf1 as [Hz1 Hu1].
  destruct (lookup_lt_is_Some_2 (zones st1) i) as [z1 Hiz]; [lia|].
  rewrite (item_lookup _ _ _ Hiz). simpl.
  eexists. split; [done|]. split; [done|]. simpl.
  rewrite Hres1, length_app. simpl.
  split; [lia|]. split.
  { intros Hm. destruct (Hk2 Hm) as [Hm'|(j' & Hj' & Hused)].
    - destruct (Hm1 Hm') as (j & Hj & Hlt). exists j.
      split; [by apply Hmono|]. intros Hji.
      assert (j ≠ i) by (intros ->; congruence).
      assert (length (result st) < i) by (apply Hlt; lia). lia.
    - exists j'. split; [done|lia]. }
  split.
  { intros Hm. destruct (Hk3 Hm) as [-> Hpairs].
    assert (merged st = false) as Hm' by done.
    destruct (Hm0 Hm') as (Hzs & Hrep & Hres & Hold).
    rewrite Hzs in Hiz. split; [done|]. split; [done|].
    split; [by rewrite Hres, (take_S_r _ _ _ Hiz)|].
    intros i' j z1' z2' Hi' Hij H1 H2 Ht.
    destruct (decide (i' = i)) as [->|]; [|apply (Hold i' j); auto; lia].
    apply (Hpairs j); rewrite ?Hzs; auto.
    + split; [done|]. by eapply lookup_lt_Some.
    + rewrite Hrep. apply lookup_replicate_2. by eapply lookup_lt_Some. }
  intros P HPc Hall. destruct (HP P HPc Hall) as [Hzs Hrs].
  pose proof (HP1 P HPc Hzs) as Hzs1. split; [done|].
  apply Forall_app. split; [done|]. apply Forall_singleton.
  rewrite Forall_lookup in Hzs1. by eapply Hzs1.
Qed.

Lemma merge_pass_spec zones0 :
  ∃ res m,
    merge_pass threshold_pct zones0 = Ok (res, m) ∧
    length res ≤ length zones0 ∧
    (m = true → length res < length zones0) ∧
    (m = false → res = zones0 ∧ no_mergeable_pair threshold_pct zones0) ∧
    (∀ P, merge_closed P → Forall P zones0 → Forall P res).
Proof.
  unfold merge_pass, py_range. rewrite Nat.sub_0_r.
  destruct (for_range_invariant (outer_inv threshold_pct zones0) 0
              (length zones0) (merge_outer_body threshold_pct)
              {| zones := zones0; used := replicate (length zones0) false;
                 result := []; merged := false |})
    as (st & -> & Hwf & Hlen & Hm1 & Hm0 & HP).
  - split; [by split; simpl; rewrite ?length_replicate|]. simpl.
    split; [lia|]. split; [done|]. split; [|by auto].
    intros _. repeat split; try done. intros; lia.
  - intros i s1 Hi Hinv. apply merge_outer_body_inv; [lia|done].
  - simpl in *. exists (result st), (merged st). split; [done|].
    split; [done|]. split; [|split].
    + intros Hm. destruct (Hm1 Hm) as (j & Hj & Hlt). apply Hlt.
      apply lookup_lt_Some in Hj. destruct Hwf. lia.
    + intros Hm. destruct (Hm0 Hm) as (_ & _ & Hres & Hpairs).
      split; [by rewrite Hres, take_ge|].
      intros i j z1 z2 Hij H1 H2 Ht. apply (Hpairs i j); auto.
      apply lookup_lt_Some in H2. lia.
    + intros P HPc Hall. by apply HP.
Qed.

(** ** The fixed-point loop *)

Lemma merge_while_spec fuel zs :
  length zs < fuel →
  ∃ r, merge_while fuel threshold_pct zs = Ok r ∧
       merge_pass threshold_pct r = Ok (r, false) ∧
       no_mergeable_pair threshold_pct r ∧
       length r ≤ length zs ∧
       (∀ P, merge_closed P → Forall P zs → Forall P r).
Proof.
  revert zs. induction fuel as [|fuel IH]; intros zs Hfuel; [lia|].
  destruct (merge_pass_spec zs) as (res & m & Hpass & Hlen & Hm1 & Hm0 & HP).
  simpl. rewrite Hpass. simpl. destruct m.
  - destruct (IH res) as (r & Hr & Hfix & Hno & Hlen' & HP').
    { pose proof (Hm1 eq_refl). lia. }
    exists r. split; [done|]. split; [done|]. split; [done|].
    split; [lia|]. intros P HPc Hall. apply HP'; [done|]. by apply HP.
  - destruct (Hm0 eq_refl) as [-> Hno].
    exists zs. split; [done|]. split; [done|]. split; [done|].
    split; [done|]. auto.
Qed.

Lemma merge_while_more_fuel fuel fuel' zs r :
  merge_while fuel threshold_pct zs = Ok r → fuel ≤ fuel' →
  merge_while fuel' threshold_pct zs = Ok r.
Proof.
  revert fuel' zs. induction fuel as [|fuel IH]; intros fuel' zs; [done|].
  intros Hrun Hle. destruct fuel' as [|fuel']; [lia|]. simpl in *.
  destruct (merge_pass threshold_pct zs) as [[res m]| |]; simpl in *; try done.
  destruct m; [|done]. apply IH; [done|lia].
Qed.

Lemma merge_zones_spec zs :
  ∃ r, _merge_zones zs threshold_pct = Ok r ∧
       merge_pass threshold_pct r = Ok (r, false) ∧
       no_mergeable_pair threshold_pct r ∧
       length r ≤ length zs ∧
       (∀ P, merge_closed P → Forall P zs → Forall P r).
Proof.
  destruct zs as [|z zs].
  - exists []. split; [done|]. split; [done|]. split; [|split; [done|auto]].
    intros i j z1 z2 _ H1. by rewrite lookup_nil in H1.
  - apply (merge_while_spec (S (length (z :: zs)))). lia.
Qed.

(** The [while] loop of [_merge_zones] ends, and never raises. *)
Lemma merge_zones_terminates zs :
  ∃ r, _merge_zones zs threshold_pct = Ok r.
Proof. destruct (merge_zones_spec zs) as (r & Hr & _). eauto. Qed.

(** ** Kind and origin of the cells *)

Lemma absorb_identity (z1 z2 base other : Zone) :
  zone_identity (absorb z1 z2 base other) = zone_identity base.
Proof. reflexivity. Qed.

Lemma inner_step_identity i j st st' :
  inner_step threshold_pct i j st st' →
  zone_identity <$> zones st' = zone_identity <$> zones st.
Proof.
  destruct 1 as [| | |z1 z2 ? H1 H2|z1 z2 ? H1 H2]; simpl; try done;
    rewrite list_fmap_insert; apply list_insert_id;
    rewrite list_lookup_fmap, ?H1, ?H2; done.
Qed.

Lemma merge_inner_loop_identity n i st :
  pass_wf n st → i < n →
  ∃ st', for_each (py_range (i + 1) (length (zones st)))
           (merge_inner_body threshold_pct i) st = Ok st' ∧
         pass_wf n st' ∧ result st' = result st ∧
         zone_identity <$> zones st' = zone_identity <$> zones st.
Proof.
  intros Hwf Hi. pose proof Hwf as [Hz _]. unfold py_range. rewrite Hz.
  apply (for_each_invariant
           (λ st', pass_wf n st' ∧ result st' = result st ∧
                   zone_identity <$> zones st' = zone_identity <$> zones st));
    [done|].
  intros j s1 [Hj1 Hj2]%elem_of_seq (Hwf1 & Hres & Hid).
  destruct (merge_inner_body_step n i j s1) as (s2 & Hrun & Hstep);
    [done|lia|lia|].
  exists s2. split; [done|]. split; [by eapply inner_step_wf|].
  split; [by rewrite (inner_step_result _ _ _ _ Hstep)|].
  by rewrite (inner_step_identity _ _ _ _ Hstep).
Qed.

Lemma merge_pass_identity zones0 res m :
  merge_pass threshold_pct zones0 = Ok (res, m) →
  (zone_identity <$> res) `sublist_of` (zone_identity <$> zones0).
Proof.
  unfold merge_pass, py_range. rewrite Nat.sub_0_r.
  destruct (for_range_invariant
              (λ i st, pass_wf (length zones0) st ∧
                       zone_identity <$> zones st = zone_identity <$> zones0 ∧
                       (zone_identity <$> result st)
                         `sublist_of` (zone_identity <$> take i zones0))
              0 (length zones0) (merge_outer_body threshold_pct)
              {| zones := zones0; used := replicate (length zones0) false;
                 result := []; merged := false |})
    as (st & -> & Hwf & Hid & Hsub).
  - split; [by split; simpl; rewrite ?length_replicate|]. by simpl.
  - intros i st [_ Hi] (Hwf & Hid & Hsub). simpl in Hi.
    pose proof Hwf as [Hz Hu]. unfold merge_outer_body.
    destruct (lookup_lt_is_Some_2 zones0 i) as [z0 Hz0]; [lia|].
    rewrite (take_S_r _ _ _ Hz0), fmap_snoc.
    destruct (lookup_lt_is_Some_2 (used st) i) as [u Hiu]; [lia|].
    rewrite (item_lookup _ _ _ Hiu). simpl. destruct u.
    { exists st. split; [done|]. split; [done|]. split; [done|].
      by apply sublist_inserts_r. }
    destruct (merge_inner_loop_identity (length zones0) i st Hwf Hi)
      as (st1 & -> & Hwf1 & Hres1 & Hid1).
    simpl. pose proof Hwf1 as [Hz1 Hu1].
    destruct (lookup_lt_is_Some_2 (zones st1) i) as [z1 Hiz]; [lia|].
    rewrite (item_lookup _ _ _ Hiz). simpl.
    eexists. split; [done|]. split; [done|]. simpl.
    split; [congruence|].
    rewrite Hres1, fmap_snoc. apply sublist_app; [done|].
    assert (zone_identity z1 = zone_identity z0) as ->; [|done].
    assert ((zone_identity <$> zones st1) !! i = (zone_identity <$> zones0) !! i)
      as Hcell by congruence.
    rewrite !list_lookup_fmap, Hiz, Hz0 in Hcell. simpl in Hcell.
    congruence.
  - simpl in *. intros [= <- <-]. by rewrite take_ge in Hsub.
Qed.

Lemma merge_while_identity fuel zs r :
  merge_while fuel threshold_pct zs = Ok r →
  (zone_identity <$> r) `sublist_of` (zone_identity <$> zs).
Proof.
  revert zs. induction fuel as [|fuel IH]; intros zs; [done|]. simpl.
  destruct (merge_pass threshold_pct zs) as [[res m]| |] eqn:Hpass;
    simpl; try done.
  pose proof (merge_pass_identity _ _ _ Hpass) as Hsub.
  destruct m.
  - intros Hr. etrans; [by apply IH|done].
  - by intros [= <-].
Qed.

Lemma merge_zones_identity zs r :
  _merge_zones zs threshold_pct = Ok r →
  (zone_identity <$> r) `sublist_of` (zone_identity <$> zs).
Proof.
  destruct zs as [|z zs]; [by intros [= <-]|]. apply merge_while_identity.
Qed.
End merge_pass.

(** C6. [_merge_zones] is idempotent: it returns a list (it ends and does not
    raise), applying it to that list returns the list unchanged, and no pair
    of same-kind zones in the list passes the merge test. *)
Theorem merge_zones_idempotent (zs : list Zone) (threshold_pct : Q) :
  ∃ r, _merge_zones zs threshold_pct = Ok r ∧
       _merge_zones r threshold_pct = Ok r ∧
       no_mergeable_pair threshold_pct r.
Proof.
  destruct (merge_zones_spec threshold_pct zs) as (r & Hr & Hfix & Hno & _).
  exists r. split; [done|]. split; [|done].
  destruct r as [|z r]; [done|].
  unfold _merge_zones. simpl merge_while. by rewrite Hfix.
Qed.

(** Scenario C of the specification. *)
Example merge_zones_scenario_C :
  _merge_zones [mk_zone resistance 100 102 0 2;
                mk_zone resistance 102.3 103 1 5] default_threshold_pct
  = Ok [mk_zone resistance 100 102 0 2; mk_zone resistance 102.3 103 1 5] ∧
  _merge_zones [mk_zone resistance 100 102 0 2;
                mk_zone resistance 102.005 102.5 1 5] default_threshold_pct
  = Ok [set_strength 2 (mk_zone resistance 100 102.5 0 2)].
Proof. split; reflexivity. Qed.

(** ** The identity that survives a merge *)

(** C1, evaluated where it fails.  The younger zone stands first and the
    older, overlapping one second.  The older zone is the base and receives
    the union of the bounds, the summed strength and the least pivot index,
    but it is the first zone that is appended to the result, and it has
    received nothing: the list returned holds the younger zone, unchanged. *)
Theorem merge_zones_keeps_first_not_older :
  _merge_zones [mk_zone resistance 100 102 5 6;
                mk_zone resistance 101 102.5 1 2] default_threshold_pct
  = Ok [mk_zone resistance 100 102 5 6] ∧
  mergeable default_threshold_pct (mk_zone resistance 100 102 5 6)
                                  (mk_zone resistance 101 102.5 1 2) = true ∧
  merge_pass default_threshold_pct
    [mk_zone resistance 100 102 5 6; mk_zone resistance 101 102.5 1 2]
  = Ok ([mk_zone resistance 100 102 5 6], true).
Proof. repeat split; reflexivity. Qed.

(** The same pair in chronological order merges as documented. *)
Example merge_zones_older_first :
  _merge_zones [mk_zone resistance 101 102.5 1 2;
                mk_zone resistance 100 102 5 6] default_threshold_pct
  = Ok [set_strength 2 (mk_zone resistance 100 102.5 1 2)].
Proof. reflexivity. Qed.

(** What [_merge_zones] returns on a mergeable pair, in general: the first
    zone of the list is the one kept; it has absorbed the second only when it
    is not the younger of the two. *)
Lemma merge_pass_single (z : Zone) (threshold_pct : Q) :
  merge_pass threshold_pct [z] = Ok ([z], false).
Proof. reflexivity. Qed.

Lemma merge_zones_pair_older_first (z1 z2 : Zone) (threshold_pct : Q) :
  type z1 = type z2 → mergeable threshold_pct z1 z2 = true →
  (origin_time z1 ≤ origin_time z2)%Z →
  _merge_zones [z1; z2] threshold_pct = Ok [absorb z1 z2 z1 z2].
Proof.
  intros Ht Hm Hot.
  assert (merge_pass threshold_pct [z1; z2]
          = Ok ([absorb z1 z2 z1 z2], true)) as Hpass.
  { unfold merge_pass, merge_outer_body, merge_inner_body, py_range. cbn.
    rewrite bool_decide_eq_true_2 by done. cbn. rewrite Hm.
    destruct (Z.leb_spec (origin_time z1) (origin_time z2)); [|lia].
    reflexivity. }
  unfold _merge_zones. simpl merge_while. rewrite Hpass. reflexivity.
Qed.

Lemma merge_zones_pair_younger_first (z1 z2 : Zone) (threshold_pct : Q) :
  type z1 = type z2 → mergeable threshold_pct z1 z2 = true →
  (origin_time z2 < origin_time z1)%Z →
  _merge_zones [z1; z2] threshold_pct = Ok [z1].
Proof.
  intros Ht Hm Hot.
  assert (merge_pass threshold_pct [z1; z2] = Ok ([z1], true)) as Hpass.
  { unfold merge_pass, merge_outer_body, merge_inner_body, py_range. cbn.
    rewrite bool_decide_eq_true_2 by done. cbn. rewrite Hm.
    destruct (Z.leb_spec (origin_time z1) (origin_time z2)); [lia|].
    reflexivity. }
  unfold _merge_zones. simpl merge_while. rewrite Hpass. reflexivity.
Qed.

(** ** The pipeline *)

Lemma absorb_fields (z1 z2 base other : Zone) :
  type (absorb z1 z2 base other) = type base ∧
  origin_time (absorb z1 z2 base other) = origin_time base ∧
  status (absorb z1 z2 base other) = status base ∧
  touches (absorb z1 z2 base other) = touches base ∧
  zone_low (absorb z1 z2 base other) = py_min (zone_low z1) (zone_low z2) ∧
  zone_high (absorb z1 z2 base other) = py_max (zone_high z1) (zone_high z2) ∧
  strength (absorb z1 z2 base other) = (strength base + strength other)%Z ∧
  pivot_idx (absorb z1 z2 base other) = Nat.min (pivot_idx z1) (pivot_idx z2).
Proof. repeat split. Qed.

Lemma refine_spec_fields (z : Zone) (candles : list Candle) :
  type (refine_spec z candles) = type z ∧
  origin_time (refine_spec z candles) = origin_time z ∧
  strength (refine_spec z candles) = strength z ∧
  touches (refine_spec z candles) = touches z ∧
  status (refine_spec z candles) = status z ∧
  pivot_idx (refine_spec z candles) = pivot_idx z ∧
  (type z = resistance →
     zone_high (refine_spec z candles) = zone_high z) ∧
  (type z = support → zone_low (refine_spec z candles) = zone_low z).
Proof.
  unfold refine_spec. destruct (type z) eqn:Ht; case_match; simpl;
    rewrite ?Ht; repeat split; done.
Qed.

Lemma init_zone_type (pivot : Pivot) (candles : list Candle) (z : Zone) :
  _init_zone_from_pivot pivot candles = Some z →
  type z = zone_type_of (ptype pivot) ∧
  origin_time z = open_time (candle pivot) ∧
  pivot_idx z = idx pivot ∧ status z = active ∧ strength z = 1%Z.
Proof.
  unfold _init_zone_from_pivot.
  destruct (ptype pivot); repeat case_match; intros [= <-]; done.
Qed.

Lemma is_broken_false_unbroken (z : Zone) (candles : list Candle) :
  _is_broken z candles = false → unbroken candles z.
Proof.
  unfold _is_broken. intros Hb i c Hi Hc.
  assert (c ∈ drop (pivot_idx z) candles) as Hin.
  { apply list_elem_of_lookup. exists (i - pivot_idx z).
    rewrite lookup_drop. by replace (pivot_idx z + (i - pivot_idx z)) with i by lia. }
  split; intros Ht Hlt.
  - pose proof (is_broken_loop_false_resistance _ _ Ht Hb c Hin) as E.
    apply Qlt_bool_false in E. lra.
  - pose proof (is_broken_loop_false_support _ _ Ht Hb c Hin) as E.
    apply Qlt_bool_false in E. lra.
Qed.

Lemma unbroken_is_broken_false (z : Zone) (candles : list Candle) :
  unbroken candles z → _is_broken z candles = false.
Proof.
  unfold _is_broken. intros Hu.
  assert (∀ c, c ∈ drop (pivot_idx z) candles →
               (type z = resistance → ¬ (zone_high z < close c)%Q) ∧
               (type z = support → ¬ (close c < zone_low z)%Q)) as Hall.
  { intros c (k & Hk)%list_elem_of_lookup. rewrite lookup_drop in Hk.
    apply (Hu (pivot_idx z + k)); [lia|done]. }
  induction (drop (pivot_idx z) candles) as [|c cs IH]; simpl; [done|].
  destruct (Hall c) as [Hr Hs]; [by left|].
  rewrite IH by (intros c' Hc'; apply Hall; by right).
  destruct (type z) eqn:Ht; simpl.
  - destruct (Qlt_bool (close c) (zone_low z)) eqn:E; [|done].
    apply Qlt_bool_iff in E. by destruct Hs.
  - destruct (Qgt_bool (close c) (zone_high z)) eqn:E; [|done].
    apply Qgt_bool_iff in E. by destruct Hr.
Qed.

Lemma unbroken_refine (z : Zone) (candles : list Candle) :
  unbroken candles z → unbroken candles (refine_spec z candles).
Proof.
  intros Hu i c. destruct (refine_spec_fields z candles)
    as (Ht & _ & _ & _ & _ & Hp & Hh & Hl).
  rewrite Ht, Hp. intros Hi Hc. destruct (Hu i c Hi Hc) as [Hr Hs].
  split; intros Hk; [rewrite (Hh Hk)|rewrite (Hl Hk)]; auto.
Qed.

Lemma unbroken_merge_closed (candles : list Candle) :
  merge_closed (unbroken candles).
Proof.
  assert (∀ z1 z2 base other,
            unbroken candles z1 → unbroken candles z2 →
            type z1 = type z2 → type base = type z1 →
            unbroken candles (absorb z1 z2 base other)) as Hab.
  { intros z1 z2 base other H1 H2 Ht Hb i c.
    destruct (absorb_fields z1 z2 base other)
      as (-> & _ & _ & _ & -> & -> & _ & ->).
    intros Hi Hc.
    pose proof (py_max_ge_l (zone_high z1) (zone_high z2)).
    pose proof (py_max_ge_r (zone_high z1) (zone_high z2)).
    pose proof (py_min_le_l (zone_low z1) (zone_low z2)).
    pose proof (py_min_le_r (zone_low z1) (zone_low z2)).
    destruct (Nat.min_spec (pivot_idx z1) (pivot_idx z2)) as [[_ Hmin]|[_ Hmin]];
      rewrite Hmin in Hi.
    - destruct (H1 i c Hi Hc) as [Hr Hs].
      split; intros Hk Hlt; [apply Hr|apply Hs]; try congruence; lra.
    - destruct (H2 i c Hi Hc) as [Hr Hs].
      split; intros Hk Hlt; [apply Hr|apply Hs]; try congruence; lra. }
  intros z1 z2 H1 H2 Ht. split; apply Hab; auto.
Qed.

Lemma created_from_merge_closed (candles : list Candle) :
  merge_closed (created_from candles).
Proof.
  intros z1 z2 (ps1 & p1 & a1 & ? & ? & ? & ? & ? & ?)
    (ps2 & p2 & a2 & ? & ? & ? & ? & ? & ?) Ht.
  split.
  - exists ps1, p1, a1. repeat split; try done.
  - exists ps2, p2, a2. repeat split; try done.
Qed.

(** The construction loop of [detect_zones] never raises and collects
    refined zones that passed the breakout check. *)
Lemma detect_zones_loop (P : Zone → Prop) (candles : list Candle)
    (pivots : list Pivot) :
  (∀ pivot z, pivot ∈ pivots →
              _init_zone_from_pivot pivot candles = Some z →
              _is_broken z candles = false → P (refine_spec z candles)) →
  ∃ zs, for_each pivots (detect_zones_body candles) [] = Ok zs ∧ Forall P zs.
Proof.
  intros HP. apply (for_each_invariant (Forall P)); [constructor|].
  intros pivot zs Hin Hall. unfold detect_zones_body.
  destruct (_init_zone_from_pivot pivot candles) as [z|] eqn:Hinit; [|eauto].
  destruct (_is_broken z candles) eqn:Hb; [eauto|].
  rewrite refine_zone_eq. simpl. eexists. split; [done|].
  apply Forall_app. split; [done|]. apply Forall_singleton. by eapply HP.
Qed.

(** [detect_zones] never raises, and a property that holds of every refined
    candidate and that merging keeps holds of every zone returned. *)
Lemma detect_zones_invariant (P : Zone → Prop) (candles : list Candle) :
  merge_closed P →
  (∀ pivots pivot z,
     _find_pivots candles = Ok pivots → pivot ∈ pivots →
     _init_zone_from_pivot pivot candles = Some z →
     _is_broken z candles = false → P (refine_spec z candles)) →
  ∃ out, detect_zones candles = Ok out ∧
         Forall (λ z, P z ∧ is_valid z = true) out.
Proof.
  intros HPc HP. unfold detect_zones. case_match; [by exists []|].
  rewrite find_pivots_eq. simpl.
  destruct (detect_zones_loop P candles
              (seq 2 (length candles - 4) ≫= pivots_at candles))
    as (zs & -> & Hzs).
  { intros pivot z. apply HP. apply find_pivots_eq. }
  simpl.
  destruct (merge_zones_spec default_threshold_pct zs)
    as (r & -> & _ & _ & _ & Hr).
  simpl. eexists. split; [done|].
  apply Forall_forall. intros z [Hz Hv]%list_elem_of_In%filter_In.
  split; [|done]. pose proof (Hr P HPc Hzs) as Hall.
  rewrite Forall_forall in Hall. apply Hall. by apply list_elem_of_In.
Qed.

(** C2. [detect_zones] returns a list (it never raises) in which no zone has
    been closed through: for a resistance zone no bar at or after its pivot
    index closes strictly above [zone_high], for a support zone none closes
    strictly below [zone_low]; the breakout check itself accepts every zone
    returned, merged ones included. *)
Theorem detect_zones_unbroken (candles : list Candle) :
  ∃ out, detect_zones candles = Ok out ∧
         ∀ z, z ∈ out →
              unbroken candles z ∧ _is_broken z candles = false.
Proof.
  destruct (detect_zones_invariant (unbroken candles) candles)
    as (out & Hout & Hall).
  - apply unbroken_merge_closed.
  - intros pivots pivot z _ _ _ Hb.
    by apply unbroken_refine, is_broken_false_unbroken.
  - exists out. split; [done|]. intros z Hz.
    rewrite Forall_forall in Hall. destruct (Hall z Hz) as [Hu _].
    split; [done|]. by apply unbroken_is_broken_false.
Qed.

Lemma merge_zones_same_kind (zs : list Zone) (threshold_pct : Q) r :
  _merge_zones zs threshold_pct = Ok r →
  ∀ z', z' ∈ r →
        ∃ z, z ∈ zs ∧ type z' = type z ∧ origin_time z' = origin_time z ∧
             status z' = status z ∧ touches z' = touches z.
Proof.
  intros Hr.
  destruct (merge_zones_spec threshold_pct zs) as (r' & Hr' & _ & _ & _ & HP).
  assert (r' = r) as -> by congruence.
  set (P := λ z' : Zone,
         ∃ z, z ∈ zs ∧ type z' = type z ∧ origin_time z' = origin_time z ∧
              status z' = status z ∧ touches z' = touches z).
  assert (Forall P r) as Hall.
  { apply HP.
    - intros z1 z2 (a1 & ? & ? & ? & ? & ?) (a2 & ? & ? & ? & ? & ?) Ht.
      split; [exists a1|exists a2]; by repeat split.
    - apply Forall_forall. intros z Hz. by exists z. }
  by rewrite Forall_forall in Hall.
Qed.

(** C4. [detect_zones] returns a list (it never raises) whose every zone has
    [zone_low < zone_high] and status [active], and carries the kind that the
    initializer gave it from its pivot (resistance from a pivot-high, support
    from a pivot-low).  Stage by stage: refinement returns a zone of the same
    kind (and origin time, status and touches); the zones that the merger
    returns are, in order, cells of its input with their kind (and origin
    time, status and touches) as they were; the breakout check and the final
    filter only select. *)
Theorem detect_zones_valid_and_kind (candles : list Candle) :
  ∃ out,
    detect_zones candles = Ok out ∧
    (∀ z, z ∈ out →
          (zone_low z < zone_high z)%Q ∧ status z = active ∧
          created_from candles z) ∧
    (∀ z cs z', _refine_zone z cs = Ok z' →
                zone_identity z' = zone_identity z) ∧
    (∀ zs threshold_pct r,
       _merge_zones zs threshold_pct = Ok r →
       (zone_identity <$> r) `sublist_of` (zone_identity <$> zs)).
Proof.
  destruct (detect_zones_invariant
              (λ z, created_from candles z ∧ status z = active) candles)
    as (out & Hout & Hall).
  - intros z1 z2 [Hc1 Hs1] [Hc2 Hs2] Ht.
    destruct (created_from_merge_closed candles z1 z2 Hc1 Hc2 Ht).
    by repeat split.
  - intros pivots pivot z Hfind Hin Hinit _.
    destruct (refine_spec_fields z candles) as (Ht & Ho & _ & _ & Hs & _).
    destruct (init_zone_type _ _ _ Hinit) as (Hk & _ & _ & Hact & _).
    split; [|congruence]. by exists pivots, pivot, z.
  - exists out. split; [done|]. split; [|split].
    + intros z Hz. rewrite Forall_forall in Hall.
      destruct (Hall z Hz) as [[Hc Hs] Hv].
      apply andb_true_iff in Hv as [Hlt _]. apply Qlt_bool_iff in Hlt.
      done.
    + intros z cs z'. rewrite refine_zone_eq. intros [= <-].
      destruct (refine_spec_fields z cs) as (Ht & Ho & _ & Hto & Hs & _).
      unfold zone_identity. by rewrite Ht, Ho, Hto, Hs.
    + intros zs tp r. apply merge_zones_identity.
Qed.

(** A run of the whole pipeline: the pivot-high of bar 2 gives a resistance
    zone from its body top 103 to its wick 107, refined to the highest later
    close 104; the pivot-low of the same bar gives a support zone. *)
Example detect_zones_run :
  detect_zones [mk_candle 0 100 104 99 101; mk_candle 1 101 105 100 102;
                mk_candle 2 103 107 98 101; mk_candle 3 101 105 100 104;
                mk_candle 4 104 106 101 102; mk_candle 5 102 103 100 101]
  = Ok [mk_zone resistance 104 107 2 2; mk_zone support 98 100 2 2].
Proof. vm_compute. reflexivity. Qed.

(** Scenario B of the specification: the same bars with a later close above
    107 leave no resistance zone. *)
Example detect_zones_scenario_B :
  detect_zones [mk_candle 0 100 104 99 101; mk_candle 1 101 105 100 102;
                mk_candle 2 103 107 98 101; mk_candle 3 101 105 100 104;
                mk_candle 4 104 106 101 102; mk_candle 5 102 109 100 108]
  = Ok [mk_zone support 98 100 2 2].
Proof. vm_compute. reflexivity. Qed.

(** ** Nearest zones *)

Lemma classify_fold (price : Q) (zs rs ss : list Zone) :
  fold_left (classify price) zs (rs, ss)
  = (rs ++ List.filter (is_resistance_candidate price) zs,
     ss ++ List.filter (is_support_candidate price) zs).
Proof.
  revert rs ss. induction zs as [|z zs IH]; intros rs ss; simpl.
  - by rewrite !app_nil_r.
  - unfold is_resistance_candidate, is_support_candidate.
    destruct (type z) eqn:Ht; simpl.
    + destruct (Qlt_bool (zone_high z) price); simpl.
      * by rewrite IH, <- app_assoc.
      * destruct (Qlt_bool (zone_low z) price && Qlt_bool price (zone_high z));
          rewrite IH; by rewrite <- ?app_assoc.
    + destruct (Qgt_bool (zone_low z) price); simpl.
      * by rewrite IH, <- app_assoc.
      * destruct (Qgt_bool (zone_high z) price && Qgt_bool price (zone_low z));
          rewrite IH; by rewrite <- ?app_assoc.
Qed.

Lemma get_nearest_zones_eq (zs : list Zone) (price : Q) (max_r max_s : Z) :
  get_nearest_zones zs price max_r max_s
  = {| nearest_resistance :=
         py_slice_to (sort_by zone_low false
                        (List.filter (is_resistance_candidate price) zs)) max_r;
       nearest_support :=
         py_slice_to (sort_by zone_high true
                        (List.filter (is_support_candidate price) zs)) max_s |}.
Proof. unfold get_nearest_zones. by rewrite classify_fold. Qed.

(** What the code tests, in the order of the specification's rule: the
    comparisons are all strict. *)
Lemma is_resistance_candidate_iff (price : Q) (z : Zone) :
  is_resistance_candidate price z = true
  ↔ type z = resistance ∧
    ((price < zone_low z)%Q ∨ ((zone_low z < price)%Q ∧ (price < zone_high z)%Q)).
Proof.
  unfold is_resistance_candidate.
  rewrite andb_true_iff, orb_true_iff, andb_true_iff, bool_decide_eq_true,
    !Qgt_bool_iff. tauto.
Qed.

Lemma is_support_candidate_iff (price : Q) (z : Zone) :
  is_support_candidate price z = true
  ↔ type z = support ∧
    ((zone_high z < price)%Q ∨ ((zone_low z < price)%Q ∧ (price < zone_high z)%Q)).
Proof.
  unfold is_support_candidate.
  rewrite andb_true_iff, orb_true_iff, andb_true_iff, bool_decide_eq_true,
    !Qlt_bool_iff. tauto.
Qed.

(** C3, evaluated where it fails.  A resistance zone whose [zone_low] equals
    the price meets the specification's rule but neither strict branch of the
    loop, so it is in neither list; one tick below or inside the zone it is a
    resistance candidate.  The same holds of a support zone whose [zone_high]
    equals the price. *)
Theorem nearest_zones_drops_zone_at_price :
  spec_resistance_candidate 50 (mk_zone resistance 50 52 0 0) ∧
  get_nearest_zones [mk_zone resistance 50 52 0 0] 50 3 4
  = {| nearest_resistance := []; nearest_support := [] |} ∧
  get_nearest_zones [mk_zone resistance 50 52 0 0] 49 3 4
  = {| nearest_resistance := [mk_zone resistance 50 52 0 0];
       nearest_support := [] |} ∧
  get_nearest_zones [mk_zone resistance 50 52 0 0] 51 3 4
  = {| nearest_resistance := [mk_zone resistance 50 52 0 0];
       nearest_support := [] |} ∧
  spec_support_candidate 50 (mk_zone support 48 50 0 0) ∧
  get_nearest_zones [mk_zone support 48 50 0 0] 50 3 4
  = {| nearest_resistance := []; nearest_support := [] |}.
Proof.
  split; [split; [done|left; apply Qle_refl]|].
  split; [reflexivity|]. split; [reflexivity|]. split; [reflexivity|].
  split; [split; [done|left; apply Qle_refl]|]. reflexivity.
Qed.

(** In general the code and the specification's rule differ exactly on the
    zones whose near edge is at the price. *)
Lemma resistance_candidate_gap (price : Q) (z : Zone) :
  spec_resistance_candidate price z
  ↔ is_resistance_candidate price z = true
    ∨ (type z = resistance ∧ (zone_low z == price)%Q).
Proof.
  rewrite is_resistance_candidate_iff. unfold spec_resistance_candidate.
  split.
  - intros [Ht [Hle|Hin]]; [|by auto].
    destruct (Qlt_le_dec price (zone_low z)); [by auto|].
    right. split; [done|]. lra.
  - intros [[Ht [Hlt|Hin]]|[Ht Heq]]; (split; [done|]); auto; left; lra.
Qed.

(** ** The stable sort and the caps *)

Lemma key_order_trans (key : Zone → Q) (reverse : bool) (a b c : Zone) :
  key_order key reverse a b → key_order key reverse b c →
  key_order key reverse a c.
Proof. unfold key_order. destruct reverse; intros; lra. Qed.

Lemma insert_by_test (key : Zone → Q) (reverse : bool) (x y : Zone) :
  (if reverse then Qle_bool (key y) (key x) else Qle_bool (key x) (key y))
  = true → key_order key reverse x y.
Proof. unfold key_order. destruct reverse; apply Qle_bool_iff. Qed.

Lemma insert_by_test_false (key : Zone → Q) (reverse : bool) (x y : Zone) :
  (if reverse then Qle_bool (key y) (key x) else Qle_bool (key x) (key y))
  = false → key_order key reverse y x.
Proof.
  unfold key_order.
  destruct reverse; intros E; apply Qlt_le_weak, Qnot_le_lt;
    intros Hle; apply Qle_bool_iff in Hle; congruence.
Qed.

Lemma insert_by_perm (key : Zone → Q) (reverse : bool) (x : Zone) l :
  insert_by key reverse x l ≡ₚ x :: l.
Proof.
  induction l as [|y l IH]; simpl; [done|].
  case_match; [done|]. rewrite IH. apply Permutation_swap.
Qed.

Lemma sort_by_perm (key : Zone → Q) (reverse : bool) (l : list Zone) : sort_by key reverse l ≡ₚ l.
Proof.
  unfold sort_by. induction l as [|x l IH]; simpl; [done|].
  rewrite insert_by_perm. by rewrite IH.
Qed.

Lemma insert_by_sorted (key : Zone → Q) (reverse : bool) (x : Zone) l :
  StronglySorted (key_order key reverse) l →
  StronglySorted (key_order key reverse) (insert_by key reverse x l).
Proof.
  induction 1 as [|y l Hl IH Hy]; simpl.
  - repeat constructor.
  - case_match eqn:E.
    + apply insert_by_test in E. constructor; [by constructor|].
      constructor; [done|]. eapply Forall_impl; [exact Hy|].
      intros z Hz. by eapply key_order_trans.
    + apply insert_by_test_false in E. constructor; [done|].
      rewrite insert_by_perm. by constructor.
Qed.

Lemma sort_by_sorted (key : Zone → Q) (reverse : bool) (l : list Zone) :
  StronglySorted (key_order key reverse) (sort_by key reverse l).
Proof.
  unfold sort_by. induction l as [|x l IH]; simpl; [constructor|].
  by apply insert_by_sorted.
Qed.

Lemma StronglySorted_take {A} (R : relation A) (l : list A) n :
  StronglySorted R l → StronglySorted R (take n l).
Proof.
  intros Hl. revert n. induction Hl as [|x l Hl IH Hx]; intros [|n]; simpl;
    try constructor; [apply IH|].
  by apply Forall_take.
Qed.

Lemma StronglySorted_weaken {A} (R R' : relation A) (P : A → Prop) l :
  Forall P l → (∀ a b, P a → P b → R a b → R' a b) →
  StronglySorted R l → StronglySorted R' l.
Proof.
  intros HP Himp Hl. induction Hl as [|x l Hl IH Hx]; [constructor|].
  apply Forall_cons in HP as [Px Pl]. constructor; [by apply IH|].
  rewrite Forall_forall in Hx, Pl |- *. intros y Hy. apply Himp; auto.
Qed.

Lemma py_slice_to_take {A} (l : list A) (k : Z) :
  ∃ m, py_slice_to l k = take m l ∧ ((0 ≤ k)%Z → m = Z.to_nat k).
Proof.
  unfold py_slice_to. destruct (Z.leb_spec 0 k).
  - by exists (Z.to_nat k).
  - eexists. split; [done|]. lia.
Qed.

Lemma py_slice_to_length {A} (l : list A) (k : Z) :
  (0 ≤ k)%Z → (Z.of_nat (length (py_slice_to l k)) ≤ k)%Z.
Proof.
  intros Hk. destruct (py_slice_to_take l k) as (m & -> & Hm).
  rewrite length_take, (Hm Hk). lia.
Qed.

Lemma distance_le_positive (x y p : Q) :
  (0 < p)%Q → (x <= y)%Q → ((x - p) / p * 100 <= (y - p) / p * 100)%Q.
Proof.
  intros Hp Hxy. unfold Qdiv.
  apply Qmult_le_compat_r; [|lra].
  apply Qmult_le_compat_r; [lra|]. apply Qinv_le_0_compat. lra.
Qed.

Lemma distance_le_negative (x y p : Q) :
  (p < 0)%Q → (x <= y)%Q → ((y - p) / p * 100 <= (x - p) / p * 100)%Q.
Proof.
  intros Hp Hxy.
  assert (/ p == - / (- p))%Q as E.
  { assert (~ p == 0)%Q by lra. field. lra. }
  unfold Qdiv. rewrite E.
  assert (0 <= / - p)%Q by (apply Qinv_le_0_compat; lra).
  nra.
Qed.

Lemma distance_pct_nonzero (z : Zone) (price : Q) :
  ¬ (price == 0)%Q →
  distance_pct z price
  = Some (match type z with
          | resistance => (zone_low z - price) / price * 100
          | support => (zone_high z - price) / price * 100
          end)%Q.
Proof.
  intros Hp. unfold distance_pct.
  destruct (Qeq_bool price 0) eqn:E.
  - by apply Qeq_bool_iff in E.
  - by destruct (type z).
Qed.

(** On zones of one kind the key order is the order of the signed
    percentage distance: the same one above a positive price, the opposite
    one below a negative price. *)
Lemma key_order_dist_le (price : Q) (a b : Zone) :
  ¬ (price == 0)%Q →
  (type a = resistance → type b = resistance →
   ((0 < price)%Q → (zone_low a <= zone_low b)%Q → dist_le price a b) ∧
   ((price < 0)%Q → (zone_low a <= zone_low b)%Q → dist_le price b a)) ∧
  (type a = support → type b = support →
   ((0 < price)%Q → (zone_high a <= zone_high b)%Q → dist_le price a b) ∧
   ((price < 0)%Q → (zone_high a <= zone_high b)%Q → dist_le price b a)).
Proof.
  intros Hp. unfold dist_le. rewrite !distance_pct_nonzero by done.
  split; intros Ha Hb; rewrite Ha, Hb; split; intros Hp' Hle;
    (by apply distance_le_positive) || (by apply distance_le_negative).
Qed.

Lemma nearest_resistance_kind zs price max_r max_s :
  Forall (λ z, type z = resistance)
    (nearest_resistance (get_nearest_zones zs price max_r max_s)).
Proof.
  rewrite get_nearest_zones_eq. simpl.
  destruct (py_slice_to_take
              (sort_by zone_low false
                 (List.filter (is_resistance_candidate price) zs)) max_r)
    as (m & -> & _).
  apply Forall_take. rewrite sort_by_perm. apply Forall_forall.
  intros z [_ Hz]%list_elem_of_In%filter_In.
  by apply is_resistance_candidate_iff in Hz as [? _].
Qed.

Lemma nearest_support_kind zs price max_r max_s :
  Forall (λ z, type z = support)
    (nearest_support (get_nearest_zones zs price max_r max_s)).
Proof.
  rewrite get_nearest_zones_eq. simpl.
  destruct (py_slice_to_take
              (sort_by zone_high true
                 (List.filter (is_support_candidate price) zs)) max_s)
    as (m & -> & _).
  apply Forall_take. rewrite sort_by_perm. apply Forall_forall.
  intros z [_ Hz]%list_elem_of_In%filter_In.
  by apply is_support_candidate_iff in Hz as [? _].
Qed.

Lemma nearest_resistance_sorted zs price max_r max_s :
  StronglySorted (key_order zone_low false)
    (nearest_resistance (get_nearest_zones zs price max_r max_s)).
Proof.
  rewrite get_nearest_zones_eq. simpl.
  destruct (py_slice_to_take
              (sort_by zone_low false
                 (List.filter (is_resistance_candidate price) zs)) max_r)
    as (m & -> & _).
  apply StronglySorted_take, sort_by_sorted.
Qed.

Lemma nearest_support_sorted zs price max_r max_s :
  StronglySorted (key_order zone_high true)
    (nearest_support (get_nearest_zones zs price max_r max_s)).
Proof.
  rewrite get_nearest_zones_eq. simpl.
  destruct (py_slice_to_take
              (sort_by zone_high true
                 (List.filter (is_support_candidate price) zs)) max_s)
    as (m & -> & _).
  apply StronglySorted_take, sort_by_sorted.
Qed.

(** C5, as amended.  For non-negative caps [get_nearest_zones] returns at
    most [max_resistance] resistance zones and at most [max_support] support
    zones.  Whatever the caps, the resistance list is sorted ascending by
    [zone_low] and the support list descending by [zone_high]; for a non-zero
    price that is a monotone order of the signed percentage distance from the
    near edge: ascending for resistance and descending for support above a
    positive price, the reverse below a negative one. *)
Theorem nearest_zones_capped_sorted (zs : list Zone) (price : Q)
    (max_resistance max_support : Z) :
  let out := get_nearest_zones zs price max_resistance max_support in
  ((0 ≤ max_resistance)%Z →
   (Z.of_nat (length (nearest_resistance out)) ≤ max_resistance)%Z) ∧
  ((0 ≤ max_support)%Z →
   (Z.of_nat (length (nearest_support out)) ≤ max_support)%Z) ∧
  StronglySorted (λ a b, (zone_low a <= zone_low b)%Q)
    (nearest_resistance out) ∧
  StronglySorted (λ a b, (zone_high b <= zone_high a)%Q)
    (nearest_support out) ∧
  ((0 < price)%Q →
   StronglySorted (dist_le price) (nearest_resistance out) ∧
   StronglySorted (flip (dist_le price)) (nearest_support out)) ∧
  ((price < 0)%Q →
   StronglySorted (flip (dist_le price)) (nearest_resistance out) ∧
   StronglySorted (dist_le price) (nearest_support out)).
Proof.
  intros out.
  pose proof (nearest_resistance_sorted zs price max_resistance max_support)
    as Hrs.
  pose proof (nearest_support_sorted zs price max_resistance max_support)
    as Hss.
  pose proof (nearest_resistance_kind zs price max_resistance max_support)
    as Hrk.
  pose proof (nearest_support_kind zs price max_resistance max_support)
    as Hsk.
  fold out in Hrs, Hss, Hrk, Hsk.
  split; [|split]; [| |split; [exact Hrs|split; [exact Hss|split]]].
  - intros Hcap. unfold out. rewrite get_nearest_zones_eq. simpl.
    by apply py_slice_to_length.
  - intros Hcap. unfold out. rewrite get_nearest_zones_eq. simpl.
    by apply py_slice_to_length.
  - intros Hp. assert (¬ (price == 0)%Q) as Hnz by lra. split.
    + eapply StronglySorted_weaken; [exact Hrk| |exact Hrs].
      intros a b Ha Hb Hab.
      destruct (key_order_dist_le price a b Hnz) as [Hres _].
      destruct (Hres Ha Hb) as [Hpos _]. by apply Hpos.
    + eapply StronglySorted_weaken; [exact Hsk| |exact Hss].
      intros a b Ha Hb Hab.
      destruct (key_order_dist_le price b a Hnz) as [_ Hsup].
      destruct (Hsup Hb Ha) as [Hpos _]. by apply Hpos.
  - intros Hp. assert (¬ (price == 0)%Q) as Hnz by lra. split.
    + eapply StronglySorted_weaken; [exact Hrk| |exact Hrs].
      intros a b Ha Hb Hab.
      destruct (key_order_dist_le price a b Hnz) as [Hres _].
      destruct (Hres Ha Hb) as [_ Hneg]. by apply Hneg.
    + eapply StronglySorted_weaken; [exact Hsk| |exact Hss].
      intros a b Ha Hb Hab.
      destruct (key_order_dist_le price b a Hnz) as [_ Hsup].
      destruct (Hsup Hb Ha) as [_ Hneg]. by apply Hneg.
Qed.

(** Scenario D of the specification: price 50, lows 52, 55, 60, 70, cap 3. *)
Example nearest_zones_scenario_D :
  zone_low <$> nearest_resistance
    (get_nearest_zones [mk_zone resistance 70 71 0 0; mk_zone resistance 52 53 0 0;
                        mk_zone resistance 60 61 0 0; mk_zone resistance 55 56 0 0]
       50 default_max_resistance default_max_support)
  = [52; 55; 60]%Q.
Proof. reflexivity. Qed.

Lemma nearest_zones_capped_sorted_witness :
  (Z.of_nat (length (nearest_resistance
     (get_nearest_zones [mk_zone resistance 70 71 0 0; mk_zone resistance 52 53 0 0;
                         mk_zone resistance 60 61 0 0; mk_zone resistance 55 56 0 0;
                         mk_zone support 40 45 0 0]
        50 3 4))) ≤ 3)%Z ∧
  StronglySorted (dist_le 50) (nearest_resistance
     (get_nearest_zones [mk_zone resistance 70 71 0 0; mk_zone resistance 52 53 0 0;
                         mk_zone resistance 60 61 0 0; mk_zone resistance 55 56 0 0;
                         mk_zone support 40 45 0 0]
        50 3 4)).
Proof.
  destruct (nearest_zones_capped_sorted
     [mk_zone resistance 70 71 0 0; mk_zone resistance 52 53 0 0;
      mk_zone resistance 60 61 0 0; mk_zone resistance 55 56 0 0;
      mk_zone support 40 45 0 0] 50 3 4)
    as (Hlen & _ & _ & _ & Hpos & _).
  split.
  - apply Hlen. lia.
  - apply Hpos. reflexivity.
Defined.

(** C5 as stated fails for a negative cap, which Python's slice reads from
    the end: three candidates and cap [-1] give two zones.  At price 0 the
    percentage distance is undefined, so no list of two zones is ordered by
    it. *)
Lemma nearest_zones_negative_cap :
  ¬ (Z.of_nat (length (nearest_resistance
        (get_nearest_zones [mk_zone resistance 52 53 0 0;
                            mk_zone resistance 55 56 0 0;
                            mk_zone resistance 60 61 0 0] 50 (-1) 4)))
     ≤ -1)%Z ∧
  ¬ StronglySorted (dist_le 0) (nearest_resistance
        (get_nearest_zones [mk_zone resistance 52 53 0 0;
                            mk_zone resistance 55 56 0 0] 0 3 4)).
Proof.
  split.
  - vm_compute. intros H. by apply H.
  - intros H. apply StronglySorted_cons in H as [H _].
    apply Forall_cons in H as [H _]. exact H.
Qed.

(** * Further properties *)

(** ** Zone initialisation *)

Lemma raise_zone_low_step (candles : list Candle) (zh zl : Q) (k : Z) :
  (zl <= raise_zone_low candles zh zl k)%Q ∧
  ((zl < zh)%Q → (raise_zone_low candles zh zl k < zh)%Q) ∧
  (∀ nb, guarded_item candles k = Some nb →
         (_get_body_high nb <= raise_zone_low candles zh zl k)%Q ∨
         (zh <= _get_body_high nb)%Q).
Proof.
  unfold raise_zone_low.
  destruct (guarded_item candles k) as [nb|]; [|split; [lra|by split]].
  destruct (Qgt_bool (_get_body_high nb) zl) eqn:E1; simpl.
  - apply Qgt_bool_iff in E1.
    destruct (Qlt_bool (_get_body_high nb) zh) eqn:E2.
    + apply Qlt_bool_iff in E2.
      destruct (py_max_cases zl (_get_body_high nb)) as [[Hc Hm]|[Hc Hm]];
        rewrite Hm; (split; [lra|split; [intros; lra|]]);
        intros nb' [= <-]; left; lra.
    + apply Qlt_bool_false in E2. split; [lra|split; [done|]].
      intros nb' [= <-]. by right.
  - apply Qlt_bool_false in E1. split; [lra|split; [done|]].
    intros nb' [= <-]. by left.
Qed.

Lemma lower_zone_high_step (candles : list Candle) (zl zh : Q) (k : Z) :
  (lower_zone_high candles zl zh k <= zh)%Q ∧
  ((zl < zh)%Q → (zl < lower_zone_high candles zl zh k)%Q) ∧
  (∀ nb, guarded_item candles k = Some nb →
         (lower_zone_high candles zl zh k <= _get_body_low nb)%Q ∨
         (_get_body_low nb <= zl)%Q).
Proof.
  unfold lower_zone_high.
  destruct (guarded_item candles k) as [nb|]; [|split; [lra|by split]].
  destruct (Qlt_bool (_get_body_low nb) zh) eqn:E1; simpl.
  - apply Qlt_bool_iff in E1.
    destruct (Qgt_bool (_get_body_low nb) zl) eqn:E2.
    + apply Qgt_bool_iff in E2.
      destruct (py_min_cases zh (_get_body_low nb)) as [[Hc Hm]|[Hc Hm]];
        rewrite Hm; (split; [lra|split; [intros; lra|]]);
        intros nb' [= <-]; left; lra.
    + apply Qlt_bool_false in E2. split; [lra|split; [done|]].
      intros nb' [= <-]. by right.
  - apply Qlt_bool_false in E1. split; [lra|split; [done|]].
    intros nb' [= <-]. by left.
Qed.

Lemma raise_zone_low_fold (candles : list Candle) (zh : Q) (ks : list Z) zl :
  let r := fold_left (raise_zone_low candles zh) ks zl in
  (zl <= r)%Q ∧ ((zl < zh)%Q → (r < zh)%Q) ∧
  (∀ k nb, k ∈ ks → guarded_item candles k = Some nb →
           (_get_body_high nb <= r)%Q ∨ (zh <= _get_body_high nb)%Q).
Proof.
  revert zl. induction ks as [|k ks IH]; intros zl; simpl.
  - split; [lra|split; [done|]]. intros k nb Hk. by apply elem_of_nil in Hk.
  - destruct (raise_zone_low_step candles zh zl k) as (H1 & H2 & H3).
    destruct (IH (raise_zone_low candles zh zl k)) as (I1 & I2 & I3).
    split; [lra|]. split; [auto|].
    intros k' nb [->|Hk']%elem_of_cons Hnb; [|by eapply I3].
    destruct (H3 nb Hnb); [left; lra|by right].
Qed.

Lemma lower_zone_high_fold (candles : list Candle) (zl : Q) (ks : list Z) zh :
  let r := fold_left (lower_zone_high candles zl) ks zh in
  (r <= zh)%Q ∧ ((zl < zh)%Q → (zl < r)%Q) ∧
  (∀ k nb, k ∈ ks → guarded_item candles k = Some nb →
           (r <= _get_body_low nb)%Q ∨ (_get_body_low nb <= zl)%Q).
Proof.
  revert zh. induction ks as [|k ks IH]; intros zh; simpl.
  - split; [lra|split; [done|]]. intros k nb Hk. by apply elem_of_nil in Hk.
  - destruct (lower_zone_high_step candles zl zh k) as (H1 & H2 & H3).
    destruct (IH (lower_zone_high candles zl zh k)) as (I1 & I2 & I3).
    split; [lra|]. split; [auto|].
    intros k' nb [->|Hk']%elem_of_cons Hnb; [|by eapply I3].
    destruct (H3 nb Hnb); [left; lra|by right].
Qed.

(** X1. [_init_zone_from_pivot] returns a zone exactly when the body edge of
    the pivot bar lies strictly inside its wick, whatever the neighbours
    are: the neighbour adjustment never makes a candidate degenerate, so the
    second geometry check of the source never rejects. *)
Theorem init_zone_accepts_iff (pivot : Pivot) (candles : list Candle) :
  is_Some (_init_zone_from_pivot pivot candles) ↔ body_inside_wick pivot.
Proof.
  unfold _init_zone_from_pivot, body_inside_wick.
  destruct (ptype pivot).
  - destruct (Qge_bool (_get_body_high (candle pivot)) (high (candle pivot)))
      eqn:E1.
    + apply Qle_bool_iff in E1. split; [by intros [? [=]]|lra].
    + apply Qge_bool_false in E1.
      destruct (raise_zone_low_fold candles (high (candle pivot))
                  (neighbor_idxs (idx pivot)) (_get_body_high (candle pivot)))
        as (_ & Hlt & _).
      rewrite (proj2 (Qge_bool_false _ _) (Hlt E1)). split; [done|eauto].
  - destruct (Qle_bool (_get_body_low (candle pivot)) (low (candle pivot)))
      eqn:E1.
    + apply Qle_bool_iff in E1. split; [by intros [? [=]]|lra].
    + assert (low (candle pivot) < _get_body_low (candle pivot))%Q as Hlt0.
      { apply Qnot_le_lt. intros Hle. apply Qle_bool_iff in Hle. congruence. }
      destruct (lower_zone_high_fold candles (low (candle pivot))
                  (neighbor_idxs (idx pivot)) (_get_body_low (candle pivot)))
        as (_ & Hlt & _).
      specialize (Hlt Hlt0). split; [done|]. intros _.
      case_match eqn:E2; [|eauto]. apply Qle_bool_iff in E2. lra.
Qed.

Lemma guarded_item_nat (candles : list Candle) (j : nat) nb :
  candles !! j = Some nb → guarded_item candles (Z.of_nat j) = Some nb.
Proof.
  intros Hj. unfold guarded_item. pose proof (lookup_lt_Some _ _ _ Hj).
  rewrite decide_True by lia. by rewrite Nat2Z.id.
Qed.

Lemma neighbor_idxs_nat (i j : nat) :
  j ≠ i → i - 2 ≤ j ≤ i + 2 → Z.of_nat j ∈ neighbor_idxs i.
Proof.
  intros Hne Hj. unfold neighbor_idxs. rewrite !elem_of_cons.
  destruct (decide (j = i + 1)); [right; right; left; lia|].
  destruct (decide (j = i + 2)); [right; right; right; left; lia|].
  destruct (decide (j + 1 = i)); [left; lia|].
  right; left; lia.
Qed.

(** X2. A zone that [_init_zone_from_pivot] returns has
    [zone_low < zone_high]; its outer bound is the wick of the pivot bar and
    its inner bound lies between the body edge of that bar and the wick; no
    bar within two places of the pivot has its body edge strictly inside the
    zone; the kind follows the pivot, the origin time is the bar's, the pivot
    index the pivot's, strength 1, no touches, status active. *)
Theorem init_zone_geometry (pivot : Pivot) (candles : list Candle) (z : Zone) :
  _init_zone_from_pivot pivot candles = Some z →
  (zone_low z < zone_high z)%Q ∧
  match ptype pivot with
  | High =>
      type z = resistance ∧ zone_high z = high (candle pivot) ∧
      (_get_body_high (candle pivot) <= zone_low z)%Q ∧
      ∀ j nb, candles !! j = Some nb → j ≠ idx pivot →
              idx pivot - 2 ≤ j ≤ idx pivot + 2 →
              ¬ ((zone_low z < _get_body_high nb)%Q ∧
                 (_get_body_high nb < zone_high z)%Q)
  | Low =>
      type z = support ∧ zone_low z = low (candle pivot) ∧
      (zone_high z <= _get_body_low (candle pivot))%Q ∧
      ∀ j nb, candles !! j = Some nb → j ≠ idx pivot →
              idx pivot - 2 ≤ j ≤ idx pivot + 2 →
              ¬ ((zone_low z < _get_body_low nb)%Q ∧
                 (_get_body_low nb < zone_high z)%Q)
  end ∧
  origin_time z = open_time (candle pivot) ∧ pivot_idx z = idx pivot ∧
  strength z = 1%Z ∧ touches z = 0%Z ∧ status z = active.
Proof.
  unfold _init_zone_from_pivot. destruct (ptype pivot).
  - case_match eqn:E1; [done|]. apply Qge_bool_false in E1.
    destruct (raise_zone_low_fold candles (high (candle pivot))
                (neighbor_idxs (idx pivot)) (_get_body_high (candle pivot)))
      as (Hge & Hlt & Hnb).
    case_match eqn:E2; [done|]. apply Qge_bool_false in E2.
    intros [= <-].
    cbn [zone_low zone_high type origin_time pivot_idx strength touches status]. split; [done|]. split; [|done].
    split; [done|]. split; [done|]. split; [done|].
    intros j nb Hj Hne Hr [H1 H2]. cbn [zone_low zone_high] in H1, H2.
    destruct (Hnb (Z.of_nat j) nb) as [Hin|Hout];
      [by apply neighbor_idxs_nat|by apply guarded_item_nat| |];
      simpl in *; lra.
  - case_match eqn:E1; [done|].
    assert (low (candle pivot) < _get_body_low (candle pivot))%Q as Hlt0.
    { apply Qnot_le_lt. intros Hle. apply Qle_bool_iff in Hle. congruence. }
    destruct (lower_zone_high_fold candles (low (candle pivot))
                (neighbor_idxs (idx pivot)) (_get_body_low (candle pivot)))
      as (Hle & Hlt & Hnb).
    case_match eqn:E2; [done|].
    intros [= <-].
    cbn [zone_low zone_high type origin_time pivot_idx strength touches status]. split; [auto|]. split; [|done].
    split; [done|]. split; [done|]. split; [done|].
    intros j nb Hj Hne Hr [H1 H2]. cbn [zone_low zone_high] in H1, H2.
    destruct (Hnb (Z.of_nat j) nb) as [Hin|Hout];
      [by apply neighbor_idxs_nat|by apply guarded_item_nat| |];
      simpl in *; lra.
Qed.

Lemma init_zone_geometry_witness :
  ∃ z, _init_zone_from_pivot
         {| idx := 2; ptype := High; candle := mk_candle 2 103 107 98 101 |}
         [mk_candle 0 100 104 99 101; mk_candle 1 101 105 100 102;
          mk_candle 2 103 107 98 101; mk_candle 3 101 106 100 105;
          mk_candle 4 104 106 101 102] = Some z ∧
       zone_low z = 105%Q ∧ (zone_low z < zone_high z)%Q.
Proof.
  eexists. split; [reflexivity|].
  destruct (init_zone_geometry
    {| idx := 2; ptype := High; candle := mk_candle 2 103 107 98 101 |}
    [mk_candle 0 100 104 99 101; mk_candle 1 101 105 100 102;
     mk_candle 2 103 107 98 101; mk_candle 3 101 106 100 105;
     mk_candle 4 104 106 101 102]
    (mk_zone resistance 105 107 2 2) eq_refl) as [Hlt _].
  split; [reflexivity|exact Hlt].
Defined.

(** ** The merger as list rewriting *)

Lemma live_cells_all (zs : list Zone) :
  live_cells zs (replicate (length zs) false) = zs.
Proof. induction zs as [|z zs IH]; simpl; [done|]. by rewrite IH. Qed.

Lemma live_cells_split (T : list Zone) (U : list bool) k z :
  T !! k = Some z → U !! k = Some false →
  live_cells T U
  = live_cells (take k T) (take k U)
    ++ z :: live_cells (drop (S k) T) (drop (S k) U).
Proof.
  revert T U. induction k as [|k IH]; intros [|t T] [|u U] HT HU;
    simplify_eq/=; [done|].
  rewrite (IH T U HT HU). by destruct u.
Qed.

Lemma live_cells_mark (T : list Zone) (U : list bool) k b :
  k < length T → k < length U →
  live_cells (<[k := b]> T) (<[k := true]> U)
  = live_cells (take k T) (take k U)
    ++ live_cells (drop (S k) T) (drop (S k) U).
Proof.
  revert T U. induction k as [|k IH]; intros [|t T] [|u U] HT HU;
    simpl in *; try lia; [done|].
  rewrite (IH T U) by lia. by destruct u.
Qed.

Section merge_moves.
Variable threshold_pct : Q.

Lemma inner_step_move n i j st st' :
  pass_wf n st → i < j → j < n → used st !! i = Some false →
  inner_step threshold_pct i j st st' →
  rtc (merge_move threshold_pct) (live i st) (live i st') ∧
  used st' !! i = Some false.
Proof.
  intros [Hz Hu] Hij Hj Hi Hstep. split.
  2: { rewrite (inner_step_used_other _ _ _ _ _ i Hstep) by lia. done. }
  destruct Hstep as [| | |z1 z2 Huj H1 H2 Ht Hm Hot|z1 z2 Huj H1 H2 Ht Hm Hot];
    try done.
  - unfold live. simpl.
    assert (<[i:=absorb z1 z2 z1 z2]> (zones st) !! i
            = Some (absorb z1 z2 z1 z2)) as H1'
      by (apply list_lookup_insert_eq; lia).
    assert (<[j:=true]> (used st) !! i = Some false) as Hi'
      by (by rewrite list_lookup_insert_ne by lia).
    rewrite (drop_S _ _ _ H1), (drop_S _ _ _ Hi), (drop_S _ _ _ H1'),
      (drop_S _ _ _ Hi').
    rewrite drop_insert_lt by lia. rewrite drop_insert_ge by lia. simpl.
    assert (drop (S i) (zones st) !! (j - S i) = Some z2) as H2'.
    { rewrite lookup_drop. by replace (S i + (j - S i)) with j by lia. }
    assert (drop (S i) (used st) !! (j - S i) = Some false) as Huj'.
    { rewrite lookup_drop. by replace (S i + (j - S i)) with j by lia. }
    rewrite (live_cells_split _ _ _ _ H2' Huj').
    rewrite <- (list_insert_id _ _ _ H2') at 3.
    rewrite live_cells_mark
      by (rewrite length_drop; lia).
    apply rtc_once. by apply move_absorb.
  - unfold live. simpl.
    assert (<[j:=absorb z1 z2 z2 z1]> (zones st) !! i = Some z1) as H1'
      by (by rewrite list_lookup_insert_ne by lia).
    assert (<[j:=true]> (used st) !! i = Some false) as Hi'
      by (by rewrite list_lookup_insert_ne by lia).
    rewrite (drop_S _ _ _ H1), (drop_S _ _ _ Hi), (drop_S _ _ _ H1'),
      (drop_S _ _ _ Hi').
    rewrite !drop_insert_ge by lia. simpl.
    assert (drop (S i) (zones st) !! (j - S i) = Some z2) as H2'.
    { rewrite lookup_drop. by replace (S i + (j - S i)) with j by lia. }
    assert (drop (S i) (used st) !! (j - S i) = Some false) as Huj'.
    { rewrite lookup_drop. by replace (S i + (j - S i)) with j by lia. }
    rewrite (live_cells_split _ _ _ _ H2' Huj').
    rewrite live_cells_mark
      by (rewrite length_drop; lia).
    apply rtc_once. by apply move_drop.
Qed.
End merge_moves.

Section merge_moves_loops.
Variable threshold_pct : Q.

Lemma merge_inner_loop_moves n i st :
  pass_wf n st → i < n → used st !! i = Some false →
  ∃ st', for_each (py_range (i + 1) (length (zones st)))
           (merge_inner_body threshold_pct i) st = Ok st' ∧
         pass_wf n st' ∧ used st' !! i = Some false ∧
         rtc (merge_move threshold_pct) (live i st) (live i st').
Proof.
  intros Hwf Hi Hui. pose proof Hwf as [Hz _]. unfold py_range. rewrite Hz.
  apply (for_each_invariant
           (λ st', pass_wf n st' ∧ used st' !! i = Some false ∧
                   rtc (merge_move threshold_pct) (live i st) (live i st')));
    [done|].
  intros j s1 [Hj1 Hj2]%elem_of_seq (Hwf1 & Hui1 & Hrtc).
  destruct (merge_inner_body_step threshold_pct n i j s1)
    as (s2 & Hrun & Hstep); [done|lia|lia|].
  destruct (inner_step_move threshold_pct n i j s1 s2) as [Hmv Hui2];
    [done|lia|lia|done|done|].
  exists s2. split; [done|]. split; [by eapply inner_step_wf|].
  split; [done|]. by etrans.
Qed.

Lemma merge_pass_moves zones0 res m :
  merge_pass threshold_pct zones0 = Ok (res, m) →
  rtc (merge_move threshold_pct) zones0 res.
Proof.
  unfold merge_pass, py_range. rewrite Nat.sub_0_r.
  destruct (for_range_invariant
              (λ i st, pass_wf (length zones0) st ∧
                       rtc (merge_move threshold_pct) zones0 (live i st))
              0 (length zones0) (merge_outer_body threshold_pct)
              {| zones := zones0; used := replicate (length zones0) false;
                 result := []; merged := false |})
    as (st & -> & Hwf & Hrtc).
  - split; [by split; simpl; rewrite ?length_replicate|].
    unfold live. simpl. by rewrite live_cells_all.
  - intros i st [_ Hi] (Hwf & Hrtc). simpl in Hi.
    pose proof Hwf as [Hz Hu]. unfold merge_outer_body.
    destruct (lookup_lt_is_Some_2 (used st) i) as [u Hiu]; [lia|].
    destruct (lookup_lt_is_Some_2 (zones st) i) as [z Hiz]; [lia|].
    rewrite (item_lookup _ _ _ Hiu). simpl. destruct u.
    { exists st. split; [done|]. split; [done|].
      unfold live in *.
      by rewrite (drop_S _ _ _ Hiu), (drop_S _ _ _ Hiz) in Hrtc. }
    destruct (merge_inner_loop_moves (length zones0) i st Hwf Hi Hiu)
      as (st1 & -> & Hwf1 & Hiu1 & Hmv).
    simpl. pose proof Hwf1 as [Hz1 Hu1].
    destruct (lookup_lt_is_Some_2 (zones st1) i) as [z1 Hiz1]; [lia|].
    rewrite (item_lookup _ _ _ Hiz1). simpl.
    eexists. split; [done|]. split; [done|].
    unfold live in *. simpl. etrans; [exact Hrtc|]. etrans; [exact Hmv|].
    rewrite (drop_S _ _ _ Hiu1), (drop_S _ _ _ Hiz1). simpl.
    by rewrite <- app_assoc.
  - simpl in *. intros [= <- <-]. unfold live in Hrtc.
    destruct Hwf as [Hz Hu].
    rewrite (drop_ge (zones st)) in Hrtc by lia.
    simpl in Hrtc. by rewrite app_nil_r in Hrtc.
Qed.

Lemma merge_while_moves fuel zs r :
  merge_while fuel threshold_pct zs = Ok r →
  rtc (merge_move threshold_pct) zs r.
Proof.
  revert zs. induction fuel as [|fuel IH]; intros zs; [done|]. simpl.
  destruct (merge_pass threshold_pct zs) as [[res m]| |] eqn:Hpass;
    simpl; try done.
  pose proof (merge_pass_moves _ _ _ Hpass) as Hmv.
  destruct m.
  - intros Hr. etrans; [exact Hmv|by apply IH].
  - by intros [= <-].
Qed.

Lemma merge_zones_moves zs r :
  _merge_zones zs threshold_pct = Ok r →
  rtc (merge_move threshold_pct) zs r.
Proof.
  destruct zs as [|z zs]; [by intros [= <-]|]. apply merge_while_moves.
Qed.
End merge_moves_loops.

(** X3. [_merge_zones] rewrites its input by pairwise merges and stops at a
    list with nothing left to merge: the result is reached from the input
    by a sequence of moves, each of which takes an earlier and a later zone
    of one kind that pass the merge test and removes the later one, the
    earlier one absorbing it if it is not the younger; no pair of the result
    passes the merge test. *)
Theorem merge_zones_rewrites (zs : list Zone) (threshold_pct : Q) :
  ∃ r, _merge_zones zs threshold_pct = Ok r ∧
       rtc (merge_move threshold_pct) zs r ∧
       no_mergeable_pair threshold_pct r.
Proof.
  destruct (merge_zones_spec threshold_pct zs) as (r & Hr & _ & Hno & _).
  exists r. split; [done|]. split; [|done]. by apply merge_zones_moves.
Qed.

(** ** What the merge moves keep *)

Lemma total_strength_app (l1 l2 : list Zone) :
  total_strength (l1 ++ l2) = (total_strength l1 + total_strength l2)%Z.
Proof.
  unfold total_strength. induction l1 as [|z l1 IH]; simpl; [done|].
  rewrite IH. lia.
Qed.

Lemma total_strength_cons (z : Zone) (l : list Zone) :
  total_strength (z :: l) = (strength z + total_strength l)%Z.
Proof. reflexivity. Qed.

Lemma StronglySorted_sublist {A} (R : relation A) (l l' : list A) :
  l' `sublist_of` l → StronglySorted R l → StronglySorted R l'.
Proof.
  induction 1 as [|x l1 l2 Hsub IH|x l1 l2 Hsub IH]; [done| |].
  - intros [Hx Hl]%StronglySorted_cons. apply StronglySorted_cons.
    split; [|by apply IH].
    rewrite Forall_forall in Hx |- *. intros y Hy. apply Hx.
    by eapply elem_of_sublist.
  - intros [_ Hl]%StronglySorted_cons. by apply IH.
Qed.

Lemma chronological_fmap (l : list Zone) :
  chronological l ↔ StronglySorted Z.le (origin_time <$> l).
Proof.
  unfold chronological. split.
  - by apply StronglySorted_fmap.
  - induction l as [|z l IH]; simpl; [constructor|].
    intros [Hz Hl]%StronglySorted_cons. constructor; [by apply IH|].
    by rewrite Forall_fmap in Hz.
Qed.

Lemma covers_refl (z : Zone) : covers z z.
Proof. repeat split; lra. Qed.

Lemma covers_trans (a b c : Zone) : covers a b → covers b c → covers a c.
Proof.
  intros (? & ? & ?) (? & ? & ?). split; [congruence|]. split; lra.
Qed.

Lemma absorb_covers (z1 z2 base other : Zone) :
  type z1 = type z2 → type base = type z1 →
  covers (absorb z1 z2 base other) z1 ∧ covers (absorb z1 z2 base other) z2.
Proof.
  intros Ht Hb. unfold covers. simpl.
  pose proof (py_max_ge_l (zone_high z1) (zone_high z2)).
  pose proof (py_max_ge_r (zone_high z1) (zone_high z2)).
  pose proof (py_min_le_l (zone_low z1) (zone_low z2)).
  pose proof (py_min_le_r (zone_low z1) (zone_low z2)).
  repeat split; try done; congruence.
Qed.

Section merge_move_facts.
Variable threshold_pct : Q.

(** Every move keeps the cell at the head, and never shrinks a zone. *)
Lemma merge_move_grows (l l' : list Zone) :
  merge_move threshold_pct l l' →
  head (zone_identity <$> l') = head (zone_identity <$> l) ∧
  length l' < length l ∧
  ∀ z, z ∈ l' → ∃ z0, z0 ∈ l ∧ zone_identity z = zone_identity z0 ∧
                      covers z z0.
Proof.
  destruct 1 as [l1 z1 l2 z2 l3 Ht Hm Hot|l1 z1 l2 z2 l3 Ht Hm Hot].
  - split; [by destruct l1|]. split.
    { rewrite !length_app. simpl. rewrite !length_app. simpl. lia. }
    intros z. rewrite !elem_of_app, elem_of_cons, !elem_of_app.
    intros [Hz|[->|[Hz|Hz]]].
    + exists z. rewrite !elem_of_app. eauto using covers_refl.
    + exists z1. split; [rewrite !elem_of_app, elem_of_cons; auto|].
      split; [done|]. by apply absorb_covers.
    + exists z. rewrite !elem_of_app, elem_of_cons, !elem_of_app.
      eauto 6 using covers_refl.
    + exists z. rewrite !elem_of_app, elem_of_cons, !elem_of_app, elem_of_cons.
      eauto 8 using covers_refl.
  - split; [by destruct l1|]. split.
    { rewrite !length_app. simpl. rewrite !length_app. simpl. lia. }
    intros z. rewrite !elem_of_app, elem_of_cons, !elem_of_app.
    intros Hz. exists z. split; [|by split; [|apply covers_refl]].
    rewrite !elem_of_app, elem_of_cons, !elem_of_app, elem_of_cons.
    tauto.
Qed.

Lemma merge_moves_grow (l l' : list Zone) :
  rtc (merge_move threshold_pct) l l' →
  head (zone_identity <$> l') = head (zone_identity <$> l) ∧
  ∀ z, z ∈ l' → ∃ z0, z0 ∈ l ∧ zone_identity z = zone_identity z0 ∧
                      covers z z0.
Proof.
  induction 1 as [l|l l' l'' Hmv Hrtc [IHh IHc]].
  - split; [done|]. intros z Hz. exists z. eauto using covers_refl.
  - destruct (merge_move_grows _ _ Hmv) as (Hh & _ & Hc).
    split; [congruence|]. intros z Hz.
    destruct (IHc z Hz) as (z' & Hz' & Hid' & Hcov').
    destruct (Hc z' Hz') as (z0 & Hz0 & Hid0 & Hcov0).
    exists z0. split; [done|]. split; [congruence|]. by eapply covers_trans.
Qed.

(** On a chronological list a move is always an absorption by the earlier
    zone: strength is conserved, the list stays chronological, and every
    zone is still covered. *)
Lemma merge_move_chronological (l l' : list Zone) :
  merge_move threshold_pct l l' → chronological l →
  chronological l' ∧ total_strength l' = total_strength l ∧
  ∀ z0, z0 ∈ l → ∃ z, z ∈ l' ∧ covers z z0.
Proof.
  intros Hmv Hchr. split.
  { apply chronological_fmap. apply chronological_fmap in Hchr.
    eapply StronglySorted_sublist; [|exact Hchr].
    destruct Hmv; rewrite !fmap_app, !fmap_cons, !fmap_app, ?fmap_cons;
      simpl; apply sublist_app; try done; apply sublist_skip;
      apply sublist_app; try done; by apply sublist_cons. }
  destruct Hmv as [l1 z1 l2 z2 l3 Ht Hm Hot|l1 z1 l2 z2 l3 Ht Hm Hot].
  - split.
    { rewrite !total_strength_app, !total_strength_cons,
        !total_strength_app, total_strength_cons.
      cbn [absorb strength set_zone_low set_zone_high set_strength
           set_pivot_idx]. lia. }
    destruct (absorb_covers z1 z2 z1 z2 Ht eq_refl) as [Hc1 Hc2].
    intros z0. rewrite !elem_of_app, elem_of_cons, !elem_of_app, elem_of_cons.
    intros [Hz|[->|[Hz|[->|Hz]]]].
    + exists z0. rewrite !elem_of_app. eauto using covers_refl.
    + exists (absorb z1 z2 z1 z2).
      rewrite !elem_of_app, elem_of_cons. eauto.
    + exists z0. rewrite !elem_of_app, elem_of_cons, !elem_of_app.
      eauto 6 using covers_refl.
    + exists (absorb z1 z2 z1 z2).
      rewrite !elem_of_app, elem_of_cons. eauto.
    + exists z0. rewrite !elem_of_app, elem_of_cons, !elem_of_app.
      eauto 6 using covers_refl.
  - exfalso. unfold chronological in Hchr.
    apply StronglySorted_app_1_r, StronglySorted_cons in Hchr as [Hz1 _].
    rewrite Forall_app, Forall_cons in Hz1.
    destruct Hz1 as (_ & Hle & _). lia.
Qed.

Lemma merge_moves_chronological (l l' : list Zone) :
  rtc (merge_move threshold_pct) l l' → chronological l →
  chronological l' ∧ total_strength l' = total_strength l ∧
  ∀ z0, z0 ∈ l → ∃ z, z ∈ l' ∧ covers z z0.
Proof.
  induction 1 as [l|l l' l'' Hmv Hrtc IH]; intros Hchr.
  - split; [done|]. split; [done|]. intros z0 Hz0. exists z0.
    eauto using covers_refl.
  - destruct (merge_move_chronological _ _ Hmv Hchr) as (Hchr' & Hs & Hc).
    destruct (IH Hchr') as (Hchr'' & Hs' & Hc').
    split; [done|]. split; [congruence|]. intros z0 Hz0.
    destruct (Hc z0 Hz0) as (z' & Hz' & Hcov').
    destruct (Hc' z' Hz') as (z & Hz & Hcov).
    exists z. split; [done|]. by eapply covers_trans.
Qed.
End merge_move_facts.

(** X4. On a list whose origin times do not decrease, [_merge_zones]
    conserves strength: the strengths of the zones returned add up to those
    of the zones given, and the list returned is again in chronological
    order. *)
Theorem merge_zones_conserves_strength (zs : list Zone) (threshold_pct : Q) :
  chronological zs →
  ∃ r, _merge_zones zs threshold_pct = Ok r ∧
       chronological r ∧ total_strength r = total_strength zs.
Proof.
  intros Hchr.
  destruct (merge_zones_terminates threshold_pct zs) as [r Hr].
  exists r. split; [done|].
  destruct (merge_moves_chronological threshold_pct zs r) as (? & ? & _);
    [by apply merge_zones_moves|done|done].
Qed.

Lemma merge_zones_conserves_strength_witness :
  ∃ r, _merge_zones [mk_zone resistance 100 102 1 2;
                     mk_zone support 90 91 3 4;
                     mk_zone resistance 101 102.5 5 6;
                     mk_zone resistance 102.4 103 7 9] default_threshold_pct
       = Ok r ∧
       length r = 2 ∧ total_strength r = 4%Z.
Proof.
  destruct (merge_zones_conserves_strength
              [mk_zone resistance 100 102 1 2; mk_zone support 90 91 3 4;
               mk_zone resistance 101 102.5 5 6;
               mk_zone resistance 102.4 103 7 9] default_threshold_pct)
    as (r & Hr & _ & Hs).
  - unfold chronological. repeat (constructor; try (simpl; lia)).
  - exists r. split; [exact Hr|].
    split; [|exact Hs].
    assert (Ok r = Ok [set_strength 3 (mk_zone resistance 100 103 1 2);
                       mk_zone support 90 91 3 4]) as Heq
      by (rewrite <- Hr; reflexivity).
    injection Heq as ->. reflexivity.
Defined.

(** X5. On a list whose origin times do not decrease, [_merge_zones] loses
    no range: every zone given lies within a zone of its kind in the list
    returned. *)
Theorem merge_zones_covers_input (zs : list Zone) (threshold_pct : Q) :
  chronological zs →
  ∃ r, _merge_zones zs threshold_pct = Ok r ∧
       ∀ z0, z0 ∈ zs → ∃ z, z ∈ r ∧ covers z z0.
Proof.
  intros Hchr.
  destruct (merge_zones_terminates threshold_pct zs) as [r Hr].
  exists r. split; [done|].
  destruct (merge_moves_chronological threshold_pct zs r) as (_ & _ & Hc);
    [by apply merge_zones_moves|done|done].
Qed.

Lemma merge_zones_covers_input_witness :
  ∃ r z, _merge_zones [mk_zone resistance 100 102 1 2;
                       mk_zone resistance 101 102.5 5 6] default_threshold_pct
         = Ok r ∧
         z ∈ r ∧ covers z (mk_zone resistance 101 102.5 5 6).
Proof.
  destruct (merge_zones_covers_input
              [mk_zone resistance 100 102 1 2;
               mk_zone resistance 101 102.5 5 6] default_threshold_pct)
    as (r & Hr & Hc).
  - unfold chronological. repeat (constructor; try (simpl; lia)).
  - destruct (Hc (mk_zone resistance 101 102.5 5 6)) as (z & Hz & Hcov).
    + right. left.
    + exists r, z. split; [exact Hr|]. split; [exact Hz|exact Hcov].
Defined.

(** Out of chronological order the range of the dropped zone is lost. *)
Example merge_zones_loses_range :
  _merge_zones [mk_zone resistance 100 102 5 6;
                mk_zone resistance 101 102.5 1 2] default_threshold_pct
  = Ok [mk_zone resistance 100 102 5 6] ∧
  ¬ covers (mk_zone resistance 100 102 5 6) (mk_zone resistance 101 102.5 1 2).
Proof.
  split; [reflexivity|]. intros (_ & _ & Hh). simpl in Hh.
  apply Qle_bool_iff in Hh. discriminate.
Qed.

(** X6. Whatever the order, [_merge_zones] keeps the first cell and never
    shrinks a zone: a non-empty list gives a non-empty list whose first zone
    has the kind, origin time, status and touches of the first zone given,
    and every zone returned has those attributes of a zone given and a range
    that contains that zone's range. *)
Theorem merge_zones_keeps_head_and_grows (zs : list Zone) (threshold_pct : Q) :
  ∃ r, _merge_zones zs threshold_pct = Ok r ∧
       head (zone_identity <$> r) = head (zone_identity <$> zs) ∧
       (zs ≠ [] → r ≠ []) ∧
       ∀ z, z ∈ r → ∃ z0, z0 ∈ zs ∧ zone_identity z = zone_identity z0 ∧
                          covers z z0.
Proof.
  destruct (merge_zones_terminates threshold_pct zs) as [r Hr].
  exists r. split; [done|].
  destruct (merge_moves_grow threshold_pct zs r) as [Hh Hc];
    [by apply merge_zones_moves|].
  split; [done|]. split; [|done].
  intros Hne ->. destruct zs; [done|]. discriminate.
Qed.

(** ** The whole pipeline, continued *)

Lemma detect_zones_body_eq (candles : list Candle) (pivot : Pivot) zs :
  detect_zones_body candles pivot zs
  = Ok (zs ++ candidate_zone candles pivot).
Proof.
  unfold detect_zones_body, candidate_zone.
  destruct (_init_zone_from_pivot pivot candles) as [z|];
    [|by rewrite app_nil_r].
  destruct (_is_broken z candles); [by rewrite app_nil_r|].
  by rewrite refine_zone_eq.
Qed.

Lemma detect_zones_loop_eq (candles : list Candle) (pivots : list Pivot) :
  for_each pivots (detect_zones_body candles) []
  = Ok (pivots ≫= candidate_zone candles).
Proof.
  rewrite (for_each_appends _ _ (candidate_zone candles)); [done|].
  intros pivot acc _. apply detect_zones_body_eq.
Qed.

Lemma refine_spec_valid (z : Zone) (candles : list Candle) :
  (zone_low z < zone_high z)%Q →
  (zone_low (refine_spec z candles) < zone_high (refine_spec z candles))%Q.
Proof.
  intros Hlt. unfold refine_spec. destruct (type z).
  - case_match eqn:E; [|done]. by apply Qgt_bool_iff in E.
  - case_match eqn:E; [|done]. by apply Qlt_bool_iff in E.
Qed.

Lemma init_zone_valid (pivot : Pivot) (candles : list Candle) (z : Zone) :
  _init_zone_from_pivot pivot candles = Some z →
  (zone_low z < zone_high z)%Q.
Proof.
  unfold _init_zone_from_pivot. destruct (ptype pivot).
  - case_match eqn:E1; [done|]. case_match eqn:E2; [done|].
    intros [= <-]. by apply Qge_bool_false in E2.
  - case_match eqn:E1; [done|]. case_match eqn:E2; [done|].
    intros [= <-]. simpl in *.
    apply Qnot_le_lt. intros Hle. apply Qle_bool_iff in Hle. congruence.
Qed.

Lemma candidate_zone_fields (candles : list Candle) (pivot : Pivot) z :
  z ∈ candidate_zone candles pivot →
  (zone_low z < zone_high z)%Q ∧ status z = active ∧ strength z = 1%Z ∧
  origin_time z = open_time (candle pivot) ∧
  type z = zone_type_of (ptype pivot).
Proof.
  unfold candidate_zone.
  destruct (_init_zone_from_pivot pivot candles) as [z0|] eqn:Hinit;
    [|by intros ?%elem_of_nil].
  destruct (_is_broken z0 candles); [by intros ?%elem_of_nil|].
  intros ->%list_elem_of_singleton.
  destruct (init_zone_type _ _ _ Hinit) as (Ht & Ho & _ & Hs & Hst).
  pose proof (refine_spec_valid z0 candles (init_zone_valid _ _ _ Hinit))
    as Hlt'.
  destruct (refine_spec_fields z0 candles) as (Ht' & Ho' & Hst' & _ & Hs' & _).
  split; [done|]. split; [congruence|]. split; [congruence|].
  split; congruence.
Qed.

Lemma filter_all {A} (f : A → bool) (l : list A) :
  Forall (λ x, f x = true) l → List.filter f l = l.
Proof.
  induction 1 as [|x l Hx Hl IH]; simpl; [done|]. by rewrite Hx, IH.
Qed.

Lemma length_bind_le {A B} (f : A → list B) (l : list A) :
  (∀ x, length (f x) ≤ 1) → length (l ≫= f) ≤ length l.
Proof.
  intros Hf. induction l as [|x l IH]; [done|].
  rewrite bind_cons, length_app. simpl. pose proof (Hf x). lia.
Qed.

Lemma candidate_zone_length (candles : list Candle) (pivot : Pivot) :
  length (candidate_zone candles pivot) ≤ 1.
Proof. unfold candidate_zone. repeat case_match; simpl; lia. Qed.

Lemma valid_merge_closed :
  merge_closed (λ z, (zone_low z < zone_high z)%Q ∧ status z = active).
Proof.
  assert (∀ z1 z2 base other,
            (zone_low z1 < zone_high z1)%Q → status base = active →
            (zone_low (absorb z1 z2 base other)
             < zone_high (absorb z1 z2 base other))%Q ∧
            status (absorb z1 z2 base other) = active) as Hab.
  { intros z1 z2 base other Hlt Hs. simpl.
    pose proof (py_max_ge_l (zone_high z1) (zone_high z2)).
    pose proof (py_min_le_l (zone_low z1) (zone_low z2)).
    split; [lra|done]. }
  intros z1 z2 [H1 S1] [H2 S2] Ht. split; by apply Hab.
Qed.

Lemma candidates_loop (candles : list Candle) :
  _find_pivots candles = Ok (seq 2 (length candles - 4) ≫= pivots_at candles) ∧
  for_each (seq 2 (length candles - 4) ≫= pivots_at candles)
    (detect_zones_body candles) [] = Ok (candidates candles).
Proof. split; [apply find_pivots_eq|apply detect_zones_loop_eq]. Qed.

Lemma candidates_fields (candles : list Candle) z :
  z ∈ candidates candles →
  (zone_low z < zone_high z)%Q ∧ status z = active ∧ strength z = 1%Z.
Proof.
  unfold candidates. intros (p & Hz & _)%list_elem_of_bind.
  destruct (candidate_zone_fields _ _ _ Hz) as (? & ? & ? & _). done.
Qed.

(** [detect_zones] is the merger applied to the candidates: the final
    filter keeps every zone, and the early return on short input agrees. *)
Lemma detect_zones_eq_merge (candles : list Candle) :
  ∃ out, _merge_zones (candidates candles) default_threshold_pct = Ok out ∧
         detect_zones candles = Ok out ∧
         length out ≤ length (candidates candles).
Proof.
  destruct (merge_zones_spec default_threshold_pct (candidates candles))
    as (out & Hout & _ & _ & Hlen & HP).
  exists out. split; [done|]. split; [|done].
  unfold detect_zones. case_match eqn:Hshort.
  - assert (length candles < 5) as Hn.
    { apply orb_true_iff in Hshort as [->%bool_decide_eq_true|Hlt];
        [simpl; lia|]. by apply Nat.ltb_lt in Hlt. }
    revert Hout. unfold candidates.
    replace (length candles - 4) with 0 by lia. by intros [= <-].
  - destruct (candidates_loop candles) as [-> Hloop]. simpl.
    rewrite Hloop. simpl. rewrite Hout. simpl. f_equal.
    apply filter_all.
    assert (Forall (λ z, (zone_low z < zone_high z)%Q ∧ status z = active)
              out) as Hall.
    { apply HP; [apply valid_merge_closed|].
      apply Forall_forall. intros z Hz.
      destruct (candidates_fields _ _ Hz) as (? & ? & _). done. }
    eapply Forall_impl; [exact Hall|]. intros z [Hlt Hs]. unfold is_valid.
    apply andb_true_iff. split; [by apply Qlt_bool_iff|].
    by apply bool_decide_eq_true.
Qed.

(** X7. [detect_zones] returns exactly what the merger makes of the
    candidates that the construction loop collects from the pivots: the
    final validity filter never removes a zone.  There are no more zones
    than candidates, and no more candidates than pivots. *)
Theorem detect_zones_is_merge_of_candidates (candles : list Candle) :
  ∃ pivots cands out,
    _find_pivots candles = Ok pivots ∧
    for_each pivots (detect_zones_body candles) [] = Ok cands ∧
    _merge_zones cands default_threshold_pct = Ok out ∧
    detect_zones candles = Ok out ∧
    length out ≤ length cands ∧ length cands ≤ length pivots.
Proof.
  destruct (detect_zones_eq_merge candles) as (out & Hm & Hd & Hlen).
  destruct (candidates_loop candles) as [Hp Hl].
  exists (seq 2 (length candles - 4) ≫= pivots_at candles),
    (candidates candles), out.
  repeat split; try done.
  apply length_bind_le, candidate_zone_length.
Qed.

Lemma pivots_at_candle (candles : list Candle) i p :
  p ∈ pivots_at candles i → candles !! i = Some (candle p).
Proof.
  unfold pivots_at.
  repeat (case_match; try (intros []%elem_of_nil));
    rewrite ?elem_of_app, ?list_elem_of_singleton, ?elem_of_nil;
    intros Hin; destruct_or?; by simplify_eq.
Qed.

Lemma StronglySorted_lookup_lt {A} (R : relation A) (l : list A) i j x y :
  StronglySorted R l → i < j → l !! i = Some x → l !! j = Some y → R x y.
Proof.
  intros Hl. revert i j. induction Hl as [|z l Hl IH Hz]; intros i j Hij Hi Hj.
  - by rewrite lookup_nil in Hi.
  - destruct j as [|j]; [lia|]. simpl in Hj. destruct i as [|i]; simpl in Hi.
    + simplify_eq. rewrite Forall_forall in Hz. apply Hz.
      by eapply list_elem_of_lookup_2.
    + apply (IH i j); [lia|done|done].
Qed.

Lemma candidates_from_index (candles : list Candle) i z :
  z ∈ pivots_at candles i ≫= candidate_zone candles →
  ∃ c, candles !! i = Some c ∧ origin_time z = open_time c.
Proof.
  intros (p & Hz & Hp)%list_elem_of_bind.
  exists (candle p). split; [by apply pivots_at_candle|].
  by destruct (candidate_zone_fields _ _ _ Hz) as (_ & _ & _ & ? & _).
Qed.

Lemma candidates_chronological (candles : list Candle) :
  bars_in_time_order candles → chronological (candidates candles).
Proof.
  intros Hbars. unfold candidates, chronological.
  generalize (length candles - 4) as k. intros k. generalize 2 as a.
  induction k as [|k IH]; intros a; simpl; [constructor|].
  rewrite bind_app. apply StronglySorted_app_2; [| |apply IH].
  - intros x y Hx (p & Hy & (j & Hp & [Hj _]%elem_of_seq)%list_elem_of_bind)%list_elem_of_bind.
    destruct (candidates_from_index candles a x Hx) as (ca & Hca & ->).
    destruct (candidates_from_index candles j y) as (cj & Hcj & ->).
    { apply list_elem_of_bind. eauto. }
    apply (StronglySorted_lookup_lt
             (λ a b, (open_time a ≤ open_time b)%Z) candles a j);
      [done|lia|done|done].
  - assert (Forall (λ z, ∃ c, candles !! a = Some c ∧
                              origin_time z = open_time c)
              (pivots_at candles a ≫= candidate_zone candles)) as Hall.
    { apply Forall_forall. intros z. apply candidates_from_index. }
    induction Hall as [|z l (c & Hc & Hz) Hl IHl]; [constructor|].
    constructor; [done|].
    eapply Forall_impl; [exact Hl|]. simpl.
    intros z' (c' & Hc' & ->). rewrite Hz. simplify_eq. lia.
Qed.

Lemma total_strength_ones (l : list Zone) :
  Forall (λ z, strength z = 1%Z) l → total_strength l = Z.of_nat (length l).
Proof.
  induction 1 as [|z l Hz Hl IH]; [done|].
  rewrite total_strength_cons, IH, Hz. simpl length. lia.
Qed.

(** X8. On bars whose opening times do not decrease, [detect_zones] accounts
    for every candidate: the strengths of the zones returned add up to the
    number of candidates that passed the breakout check, and each of those
    candidates lies within a returned zone of its kind. *)
Theorem detect_zones_accounts_for_candidates (candles : list Candle) :
  bars_in_time_order candles →
  ∃ pivots cands out,
    _find_pivots candles = Ok pivots ∧
    for_each pivots (detect_zones_body candles) [] = Ok cands ∧
    detect_zones candles = Ok out ∧
    total_strength out = Z.of_nat (length cands) ∧
    ∀ z0, z0 ∈ cands → ∃ z, z ∈ out ∧ covers z z0.
Proof.
  intros Hbars.
  destruct (detect_zones_eq_merge candles) as (out & Hm & Hd & _).
  destruct (candidates_loop candles) as [Hp Hl].
  exists (seq 2 (length candles - 4) ≫= pivots_at candles),
    (candidates candles), out.
  split; [done|]. split; [done|]. split; [done|].
  destruct (merge_moves_chronological default_threshold_pct
              (candidates candles) out) as (_ & Hs & Hc).
  { by apply merge_zones_moves. }
  { by apply candidates_chronological. }
  split; [|done]. rewrite Hs. apply total_strength_ones.
  apply Forall_forall. intros z Hz.
  by destruct (candidates_fields _ _ Hz) as (_ & _ & ?).
Qed.

Lemma detect_zones_accounts_for_candidates_witness :
  ∃ cands out : list Zone,
    detect_zones [mk_candle 0 100 104 99 101; mk_candle 1 101 105 100 102;
                  mk_candle 2 103 107 98 101; mk_candle 3 101 105 100 104;
                  mk_candle 4 104 106 101 102; mk_candle 5 102 103 100 101]
    = Ok out ∧
    length cands = 2 ∧ total_strength out = Z.of_nat (length cands).
Proof.
  destruct (detect_zones_accounts_for_candidates
              [mk_candle 0 100 104 99 101; mk_candle 1 101 105 100 102;
               mk_candle 2 103 107 98 101; mk_candle 3 101 105 100 104;
               mk_candle 4 104 106 101 102; mk_candle 5 102 103 100 101])
    as (pivots & cands & out & Hp & Hl & Hd & Hs & _).
  - unfold bars_in_time_order. repeat (constructor; try (simpl; lia)).
  - exists cands, out. split; [exact Hd|]. split; [|exact Hs].
    assert (Ok pivots = Ok [{| idx := 2; ptype := High;
                               candle := mk_candle 2 103 107 98 101 |};
                            {| idx := 2; ptype := Low;
                               candle := mk_candle 2 103 107 98 101 |}])
      as Heq by (rewrite <- Hp; reflexivity).
    injection Heq as ->.
    assert (Ok cands = Ok [mk_zone resistance 104 107 2 2;
                           mk_zone support 98 100 2 2]) as Heq
      by (rewrite <- Hl; vm_compute; reflexivity).
    injection Heq as ->. reflexivity.
Defined.

(** ** Refinement, continued *)

Lemma fold_py_max_upper (l : list Q) acc x :
  x ∈ l → (x <= fold_left py_max l acc)%Q.
Proof.
  revert acc. induction l as [|y l IH]; intros acc Hx; simpl.
  - by apply elem_of_nil in Hx.
  - apply elem_of_cons in Hx as [->|Hx]; [|by apply IH].
    pose proof (fold_py_max_ge l (py_max acc y)).
    pose proof (py_max_ge_r acc y). lra.
Qed.

Lemma fold_py_min_lower (l : list Q) acc x :
  x ∈ l → (fold_left py_min l acc <= x)%Q.
Proof.
  revert acc. induction l as [|y l IH]; intros acc Hx; simpl.
  - by apply elem_of_nil in Hx.
  - apply elem_of_cons in Hx as [->|Hx]; [|by apply IH].
    pose proof (fold_py_min_le l (py_min acc y)).
    pose proof (py_min_le_r acc y). lra.
Qed.

Lemma fold_py_max_fixed (l : list Q) acc :
  (∀ x, x ∈ l → (x <= acc)%Q) → fold_left py_max l acc = acc.
Proof.
  induction l as [|y l IH]; intros Hub; simpl; [done|].
  assert (py_max acc y = acc) as ->.
  { unfold py_max. destruct (Qlt_bool acc y) eqn:E; [|done].
    apply Qlt_bool_iff in E. pose proof (Hub y (list_elem_of_here _ _)). lra. }
  apply IH. intros x Hx. apply Hub. by right.
Qed.

Lemma fold_py_min_fixed (l : list Q) acc :
  (∀ x, x ∈ l → (acc <= x)%Q) → fold_left py_min l acc = acc.
Proof.
  induction l as [|y l IH]; intros Hlb; simpl; [done|].
  assert (py_min acc y = acc) as ->.
  { unfold py_min. destruct (Qlt_bool y acc) eqn:E; [|done].
    apply Qlt_bool_iff in E. pose proof (Hlb y (list_elem_of_here _ _)). lra. }
  apply IH. intros x Hx. apply Hlb. by right.
Qed.

Lemma refine_spec_idempotent (z : Zone) (candles : list Candle) :
  refine_spec (refine_spec z candles) candles = refine_spec z candles.
Proof.
  unfold refine_spec at 2. destruct (type z) eqn:Ht.
  - set (l := close <$> run_before (stops_support z)
                        (drop (pivot_idx z) candles)).
    set (e := fold_left py_min l (zone_high z)).
    destruct (Qgt_bool e (zone_low z)) eqn:E.
    + unfold refine_spec. cbn [type set_zone_high pivot_idx zone_high zone_low].
      rewrite Ht.
      change (run_before (stops_support (set_zone_high e z)))
        with (run_before (stops_support z)).
      fold l. rewrite (fold_py_min_fixed l e)
        by (intros x Hx; by apply fold_py_min_lower).
      fold e. by rewrite E.
    + unfold refine_spec. rewrite Ht. fold l e. by rewrite E.
  - set (l := close <$> run_before (stops_resistance z)
                        (drop (pivot_idx z) candles)).
    set (e := fold_left py_max l (zone_low z)).
    destruct (Qlt_bool e (zone_high z)) eqn:E.
    + unfold refine_spec. cbn [type set_zone_low pivot_idx zone_high zone_low].
      rewrite Ht.
      change (run_before (stops_resistance (set_zone_low e z)))
        with (run_before (stops_resistance z)).
      fold l. rewrite (fold_py_max_fixed l e)
        by (intros x Hx; by apply fold_py_max_upper).
      fold e. by rewrite E.
    + unfold refine_spec. rewrite Ht. fold l e. by rewrite E.
Qed.

(** X9. [_refine_zone] is idempotent: refining the zone it returns, against
    the same bars, returns that zone again. *)
Theorem refine_zone_idempotent (zone : Zone) (candles : list Candle) :
  ∃ zone', _refine_zone zone candles = Ok zone' ∧
           _refine_zone zone' candles = Ok zone'.
Proof.
  exists (refine_spec zone candles). rewrite !refine_zone_eq.
  by rewrite refine_spec_idempotent.
Qed.

(** ** Nearest zones, continued *)

Lemma candidate_filters_submseteq (price : Q) (zs : list Zone) :
  List.filter (is_resistance_candidate price) zs
  ++ List.filter (is_support_candidate price) zs ⊆+ zs.
Proof.
  induction zs as [|z zs IH]; simpl; [done|].
  unfold is_resistance_candidate at 1, is_support_candidate at 1.
  destruct (type z); simpl.
  - case_match.
    + rewrite <- Permutation_middle. by apply submseteq_skip.
    + by apply submseteq_cons.
  - case_match.
    + by apply submseteq_skip.
    + by apply submseteq_cons.
Qed.

Lemma py_slice_to_submseteq {A} (l : list A) (k : Z) : py_slice_to l k ⊆+ l.
Proof.
  destruct (py_slice_to_take l k) as (m & -> & _).
  apply sublist_submseteq, sublist_take.
Qed.

Lemma nearest_lists_hold_candidates (zs : list Zone) (price : Q)
    (max_resistance max_support : Z) :
  (∀ z, z ∈ nearest_resistance
              (get_nearest_zones zs price max_resistance max_support) →
        type z = resistance ∧
        ((price < zone_low z)%Q ∨
         ((zone_low z < price)%Q ∧ (price < zone_high z)%Q))) ∧
  (∀ z, z ∈ nearest_support
              (get_nearest_zones zs price max_resistance max_support) →
        type z = support ∧
        ((zone_high z < price)%Q ∨
         ((zone_low z < price)%Q ∧ (price < zone_high z)%Q))).
Proof.
  rewrite get_nearest_zones_eq. simpl. split.
  - intros z Hz. apply is_resistance_candidate_iff.
    eapply elem_of_submseteq in Hz; [|apply py_slice_to_submseteq].
    rewrite sort_by_perm in Hz.
    by apply list_elem_of_In, filter_In in Hz as [_ ?].
  - intros z Hz. apply is_support_candidate_iff.
    eapply elem_of_submseteq in Hz; [|apply py_slice_to_submseteq].
    rewrite sort_by_perm in Hz.
    by apply list_elem_of_In, filter_In in Hz as [_ ?].
Qed.

(** X10. [get_nearest_zones] returns zones it was given, each at most as
    often as it was given and in one list only: the two lists together are a
    sub-multiset of the input.  Every zone of the resistance list is a
    resistance zone wholly above the price or with the price strictly
    inside, every zone of the support list a support zone wholly below the
    price or with the price strictly inside. *)
Theorem nearest_zones_returns_given (zs : list Zone) (price : Q)
    (max_resistance max_support : Z) :
  let out := get_nearest_zones zs price max_resistance max_support in
  nearest_resistance out ++ nearest_support out ⊆+ zs ∧
  (∀ z, z ∈ nearest_resistance out →
        type z = resistance ∧
        ((price < zone_low z)%Q ∨
         ((zone_low z < price)%Q ∧ (price < zone_high z)%Q))) ∧
  (∀ z, z ∈ nearest_support out →
        type z = support ∧
        ((zone_high z < price)%Q ∨
         ((zone_low z < price)%Q ∧ (price < zone_high z)%Q))).
Proof.
  intros out. unfold out. rewrite get_nearest_zones_eq. simpl.
  split; [|split].
  - etrans; [|apply (candidate_filters_submseteq price)].
    apply submseteq_app.
    + etrans; [apply py_slice_to_submseteq|]. by rewrite sort_by_perm.
    + etrans; [apply py_slice_to_submseteq|]. by rewrite sort_by_perm.
  - intros z Hz. apply is_resistance_candidate_iff.
    eapply elem_of_submseteq in Hz; [|apply py_slice_to_submseteq].
    rewrite sort_by_perm in Hz.
    by apply list_elem_of_In, filter_In in Hz as [_ ?].
  - intros z Hz. apply is_support_candidate_iff.
    eapply elem_of_submseteq in Hz; [|apply py_slice_to_submseteq].
    rewrite sort_by_perm in Hz.
    by apply list_elem_of_In, filter_In in Hz as [_ ?].
Qed.

(** X11. With non-negative caps [get_nearest_zones] returns the nearest
    candidates: a resistance candidate of the input that is not in the
    resistance list was cut by the cap, and every zone of that list has a
    [zone_low] not above its own; mirrored for support with [zone_high]. *)
Theorem nearest_zones_are_nearest (zs : list Zone) (price : Q)
    (max_resistance max_support : Z) :
  (0 ≤ max_resistance)%Z → (0 ≤ max_support)%Z →
  let out := get_nearest_zones zs price max_resistance max_support in
  (∀ z', z' ∈ zs → is_resistance_candidate price z' = true →
         z' ∈ nearest_resistance out ∨
         (Z.of_nat (length (nearest_resistance out)) = max_resistance ∧
          ∀ z, z ∈ nearest_resistance out →
               (zone_low z <= zone_low z')%Q)) ∧
  (∀ z', z' ∈ zs → is_support_candidate price z' = true →
         z' ∈ nearest_support out ∨
         (Z.of_nat (length (nearest_support out)) = max_support ∧
          ∀ z, z ∈ nearest_support out →
               (zone_high z' <= zone_high z)%Q)).
Proof.
  intros Hr Hs out. unfold out. rewrite get_nearest_zones_eq. simpl.
  assert (∀ key reverse (l : list Zone) (k : Z) z',
            (0 ≤ k)%Z → z' ∈ l →
            z' ∈ py_slice_to (sort_by key reverse l) k ∨
            (Z.of_nat (length (py_slice_to (sort_by key reverse l) k)) = k ∧
             ∀ z, z ∈ py_slice_to (sort_by key reverse l) k →
                  key_order key reverse z z')) as Hcut.
  { intros key reverse l k z' Hk Hz'.
    destruct (py_slice_to_take (sort_by key reverse l) k) as (m & -> & Hm).
    specialize (Hm Hk). subst m.
    pose proof (sort_by_sorted key reverse l) as Hsorted.
    rewrite <- (sort_by_perm key reverse l) in Hz'.
    rewrite <- (take_drop (Z.to_nat k) (sort_by key reverse l)) in Hz', Hsorted.
    apply elem_of_app in Hz' as [Hz'|Hz']; [by left|]. right. split.
    - rewrite length_take.
      assert (Z.to_nat k < length (sort_by key reverse l)); [|lia].
      destruct (decide (Z.to_nat k < length (sort_by key reverse l)));
        [done|].
      rewrite drop_ge in Hz' by lia. by apply elem_of_nil in Hz'.
    - intros z Hz. by eapply StronglySorted_app_1_elem_of. }
  split.
  - intros z' Hz' Hc.
    apply (Hcut zone_low false). { done. }
    apply list_elem_of_In, filter_In. split; [by apply list_elem_of_In|done].
  - intros z' Hz' Hc.
    apply (Hcut zone_high true). { done. }
    apply list_elem_of_In, filter_In. split; [by apply list_elem_of_In|done].
Qed.

Lemma nearest_zones_are_nearest_witness :
  mk_zone resistance 70 71 0 0
    ∈ nearest_resistance
        (get_nearest_zones [mk_zone resistance 70 71 0 0;
                            mk_zone resistance 52 53 0 0;
                            mk_zone resistance 60 61 0 0;
                            mk_zone resistance 55 56 0 0] 50 3 4) ∨
  (∀ z, z ∈ nearest_resistance
              (get_nearest_zones [mk_zone resistance 70 71 0 0;
                                  mk_zone resistance 52 53 0 0;
                                  mk_zone resistance 60 61 0 0;
                                  mk_zone resistance 55 56 0 0] 50 3 4) →
        (zone_low z <= 70)%Q).
Proof.
  destruct (nearest_zones_are_nearest
              [mk_zone resistance 70 71 0 0; mk_zone resistance 52 53 0 0;
               mk_zone resistance 60 61 0 0; mk_zone resistance 55 56 0 0]
              50 3 4) as [Hres _]; [lia|lia|].
  destruct (Hres (mk_zone resistance 70 71 0 0)) as [Hin|[_ Hle]].
  - left.
  - reflexivity.
  - left. exact Hin.
  - right. exact Hle.
Defined.

Lemma distance_sign (x p : Q) :
  (0 < p)%Q →
  ((0 < (x - p) / p * 100)%Q ↔ (p < x)%Q) ∧
  (((x - p) / p * 100 < 0)%Q ↔ (x < p)%Q).
Proof.
  intros Hp. pose proof (Qinv_lt_0_compat p Hp) as Hip.
  unfold Qdiv. split; split; intros H; nra.
Qed.

(** X12. Above a positive price, the percentage distance of a zone that
    [get_nearest_zones] lists is never zero.  For a zone of the resistance
    list it is negative exactly when the price is inside the zone, and
    positive otherwise; for a zone of the support list it is positive
    exactly when the price is inside the zone, and negative otherwise. *)
Theorem nearest_zones_distance_sign (zs : list Zone) (price : Q)
    (max_resistance max_support : Z) :
  (0 < price)%Q →
  let out := get_nearest_zones zs price max_resistance max_support in
  (∀ z, z ∈ nearest_resistance out →
        ∃ d, distance_pct z price = Some d ∧ ¬ (d == 0)%Q ∧
             ((d < 0)%Q ↔ (zone_low z < price)%Q ∧ (price < zone_high z)%Q)) ∧
  (∀ z, z ∈ nearest_support out →
        ∃ d, distance_pct z price = Some d ∧ ¬ (d == 0)%Q ∧
             ((0 < d)%Q ↔ (zone_low z < price)%Q ∧ (price < zone_high z)%Q)).
Proof.
  intros Hp out.
  assert (¬ (price == 0)%Q) as Hnz by lra.
  split; intros z Hz.
  - destruct (nearest_lists_hold_candidates zs price max_resistance
                max_support) as [Hres _].
    destruct (Hres z Hz) as [Ht Hc].
    rewrite (distance_pct_nonzero z price Hnz), Ht. eexists. split; [done|].
    destruct (distance_sign (zone_low z) price Hp) as [Hpos Hneg].
    split; [destruct Hc as [Hc|[Hc _]]; [apply Hpos in Hc|apply Hneg in Hc]; lra|].
    rewrite Hneg. split; [|tauto]. intros Hlt. destruct Hc; [lra|tauto].
  - destruct (nearest_lists_hold_candidates zs price max_resistance
                max_support) as [_ Hsup].
    destruct (Hsup z Hz) as [Ht Hc].
    rewrite (distance_pct_nonzero z price Hnz), Ht. eexists. split; [done|].
    destruct (distance_sign (zone_high z) price Hp) as [Hpos Hneg].
    split; [destruct Hc as [Hc|[_ Hc]]; [apply Hneg in Hc|apply Hpos in Hc]; lra|].
    rewrite Hpos. split; [|tauto]. intros Hlt. destruct Hc; [lra|tauto].
Qed.

Lemma nearest_zones_distance_sign_witness :
  ∃ d, distance_pct (mk_zone resistance 49 52 0 0) 50 = Some d ∧ (d < 0)%Q.
Proof.
  destruct (nearest_zones_distance_sign [mk_zone resistance 49 52 0 0] 50 3 4)
    as [Hres _]; [reflexivity|].
  destruct (Hres (mk_zone resistance 49 52 0 0)) as (d & Hd & _ & Hneg).
  - left.
  - exists d. split; [exact Hd|]. apply Hneg. split; reflexivity.
Defined.

(** ** Containment of a price *)

(** X13. For a zone with [zone_low <= zone_high] and a non-negative
    threshold, [contains_price] accepts every price within the bounds of the
    zone, and a price accepted at one threshold is accepted at every larger
    one. *)
Theorem contains_price_tolerant (z : Zone) (price t t' : Q) :
  (zone_low z <= zone_high z)%Q → (0 <= t)%Q →
  ((zone_low z <= price)%Q → (price <= zone_high z)%Q →
   contains_price z price t = true) ∧
  ((t <= t')%Q → contains_price z price t = true →
   contains_price z price t' = true).
Proof.
  intros Hw Ht. unfold contains_price.
  rewrite !andb_true_iff, !Qle_bool_iff. split.
  - intros Hl Hh. split; nra.
  - intros Htt [Hl Hh]. split; nra.
Qed.

Lemma contains_price_tolerant_witness :
  contains_price (mk_zone support 98 100 0 0) 99 default_contains_threshold_pct
  = true.
Proof.
  destruct (contains_price_tolerant (mk_zone support 98 100 0 0) 99
              default_contains_threshold_pct 1) as [Hin _].
  - simpl. apply Qle_bool_iff. reflexivity.
  - apply Qle_bool_iff. reflexivity.
  - apply Hin; apply Qle_bool_iff; reflexivity.
Defined.

(** ** Several timeframes *)

Lemma dict_set_fresh {V} (d : list (string * V)) k v :
  k ∉ d.*1 → dict_set d k v = d ++ [(k, v)].
Proof.
  induction d as [|[k' v'] d IH]; simpl; [done|].
  rewrite not_elem_of_cons. intros [Hne Hk].
  rewrite decide_False by done. by rewrite IH.
Qed.

Lemma multi_tf_body_detect (tf : string) (candles : option (list Candle))
    (result : list (string * list Zone)) :
  tf ∉ result.*1 →
  ∃ zs, detect_zones (default [] candles) = Ok zs ∧
        multi_tf_body (tf, candles) result = Ok (result ++ [(tf, zs)]).
Proof.
  intros Hfresh. unfold multi_tf_body. destruct candles as [[|c cs]|]; simpl.
  - exists []. split; [done|]. by rewrite dict_set_fresh.
  - destruct (detect_zones_eq_merge (c :: cs)) as (zs & _ & Hd & _).
    exists zs. rewrite Hd. split; [done|]. simpl. by rewrite dict_set_fresh.
  - exists []. split; [done|]. by rewrite dict_set_fresh.
Qed.

Lemma multi_tf_loop (candles_by_tf : list (string * option (list Candle)))
    (acc : list (string * list Zone)) :
  NoDup (acc.*1 ++ candles_by_tf.*1) →
  ∃ res, for_each candles_by_tf multi_tf_body acc = Ok (acc ++ res) ∧
         Forall2 (λ item r, r.1 = item.1 ∧
                            detect_zones (default [] item.2) = Ok r.2)
                 candles_by_tf res.
Proof.
  revert acc. induction candles_by_tf as [|[tf c] l IH]; intros acc Hnd.
  - exists []. simpl. by rewrite app_nil_r.
  - simpl in Hnd. cbn [for_each].
    destruct (multi_tf_body_detect tf c acc) as (zs & Hzs & ->).
    { apply NoDup_app in Hnd as (_ & Hdisj & _). intros Hin.
      apply (Hdisj tf Hin). by left. }
    simpl. destruct (IH (acc ++ [(tf, zs)])) as (res & -> & Hall).
    { rewrite fmap_app. simpl. rewrite <- app_assoc. done. }
    exists ((tf, zs) :: res). rewrite <- app_assoc. split; [done|].
    by constructor.
Qed.

(** X14. On a dict of timeframes (keys pairwise distinct),
    [detect_zones_multi_tf] never raises and returns a dict with the same
    keys in the same order, each with what [detect_zones] returns for the
    bars of that key; a timeframe whose bars are [None] or empty gets the
    empty list. *)
Theorem detect_zones_multi_tf_spec
    (candles_by_tf : list (string * option (list Candle))) :
  NoDup candles_by_tf.*1 →
  ∃ res, detect_zones_multi_tf candles_by_tf = Ok res ∧
         Forall2 (λ item r, r.1 = item.1 ∧
                            detect_zones (default [] item.2) = Ok r.2 ∧
                            (item.2 = None ∨ item.2 = Some [] → r.2 = []))
                 candles_by_tf res.
Proof.
  intros Hnd. destruct (multi_tf_loop candles_by_tf []) as (res & Hres & Hall);
    [done|].
  exists res. split; [done|].
  eapply Forall2_impl; [exact Hall|].
  intros [tf c] [tf' zs]. simpl. intros [-> Hd]. split; [done|].
  split; [done|].
  assert (detect_zones [] = Ok []) as Hnil by reflexivity.
  intros [->| ->]; simpl in Hd; congruence.
Qed.

Lemma detect_zones_multi_tf_spec_witness :
  detect_zones_multi_tf
    [("1h"%string, None);
     ("4h"%string,
      Some [mk_candle 0 100 104 99 101; mk_candle 1 101 105 100 102;
            mk_candle 2 103 107 98 101; mk_candle 3 101 105 100 104;
            mk_candle 4 104 106 101 102; mk_candle 5 102 109 100 108])]
  = Ok [("1h"%string, []); ("4h"%string, [mk_zone support 98 100 2 2])].
Proof.
  destruct (detect_zones_multi_tf_spec
    [("1h"%string, None);
     ("4h"%string,
      Some [mk_candle 0 100 104 99 101; mk_candle 1 101 105 100 102;
            mk_candle 2 103 107 98 101; mk_candle 3 101 105 100 104;
            mk_candle 4 104 106 101 102; mk_candle 5 102 109 100 108])])
    as (res & Hres & _).
  - simpl. apply NoDup_cons. split.
    + intros Hin. apply list_elem_of_singleton in Hin. discriminate.
    + apply NoDup_singleton.
  - assert (Ok res = Ok [("1h"%string, []);
                          ("4h"%string, [mk_zone support 98 100 2 2])])
      as Heq by (rewrite <- Hres; vm_compute; reflexivity).
    rewrite Hres. exact Heq.
Defined.

(** ** Pivots, continued *)

Lemma pivots_at_app (candles more : list Candle) i :
  i + 2 < length candles →
  pivots_at (candles ++ more) i = pivots_at candles i.
Proof.
  intros Hi. unfold pivots_at. by rewrite !lookup_app_l by lia.
Qed.

Lemma bind_ext_in {A B} (f g : A → list B) (l : list A) :
  (∀ x, x ∈ l → f x = g x) → l ≫= f = l ≫= g.
Proof.
  induction l as [|x l IH]; intros Hfg; [done|].
  rewrite !bind_cons, (Hfg x) by left. f_equal. apply IH.
  intros y Hy. apply Hfg. by right.
Qed.

(** X15. Bars that arrive later do not change the pivots already found: the
    pivot list of a bar sequence is a prefix of the pivot list of any
    extension of it. *)
Theorem find_pivots_prefix_stable (candles more : list Candle) :
  ∃ ps ps', _find_pivots candles = Ok ps ∧
            _find_pivots (candles ++ more) = Ok ps' ∧
            ps `prefix_of` ps'.
Proof.
  exists (seq 2 (length candles - 4) ≫= pivots_at candles),
    (seq 2 (length (candles ++ more) - 4) ≫= pivots_at (candles ++ more)).
  split; [apply find_pivots_eq|]. split; [apply find_pivots_eq|].
  rewrite length_app.
  replace (length candles + length more - 4)
    with ((length candles - 4)
          + (length candles + length more - 4 - (length candles - 4)))
    by lia.
  rewrite seq_app, bind_app.
  exists (seq (2 + (length candles - 4))
            (length candles + length more - 4 - (length candles - 4))
          ≫= pivots_at (candles ++ more)).
  f_equal. apply bind_ext_in.
  intros i [Hi1 Hi2]%elem_of_seq. rewrite pivots_at_app; [done|lia].
Qed.


(** ** Breakout, continued *)

(** X17. A breakout is final: a zone that [_is_broken] rejects on a bar
    sequence is rejected on every extension of it. *)
Theorem is_broken_persists (z : Zone) (candles more : list Candle) :
  _is_broken z candles = true → _is_broken z (candles ++ more) = true.
Proof.
  intros Hb. destruct (_is_broken z (candles ++ more)) eqn:Hb'; [done|].
  apply is_broken_false_unbroken in Hb'.
  rewrite unbroken_is_broken_false in Hb; [done|].
  intros i c Hi Hc. apply (Hb' i c Hi).
  rewrite lookup_app_l; [done|]. by eapply lookup_lt_Some.
Qed.

Lemma is_broken_persists_witness :
  _is_broken (mk_zone resistance 103 107 0 1)
    ([mk_candle 0 100 104 99 101; mk_candle 1 103 107 100 101;
      mk_candle 2 101 109 100 108] ++ [mk_candle 3 108 109 100 101]) = true.
Proof.
  apply (is_broken_persists (mk_zone resistance 103 107 0 1)
           [mk_candle 0 100 104 99 101; mk_candle 1 103 107 100 101;
            mk_candle 2 101 109 100 108] [mk_candle 3 108 109 100 101]).
  reflexivity.
Defined.

(** ** The timeframe of a zone object *)

Lemma holds_object_iff (zone : nat) (zones : list nat) :
  holds_object zone zones = true ↔ zone ∈ zones.
Proof.
  induction zones as [|z zones IH]; simpl.
  - split; [done|]. by intros ?%elem_of_nil.
  - rewrite elem_of_cons. destruct (Nat.eqb_spec z zone) as [->|Hne].
    + split; auto.
    + rewrite IH. split; [auto|]. intros [?|?]; [congruence|done].
Qed.

(** X18. [_get_zone_tf] returns the key of the first list, in dict order,
    that holds the zone object, and ["?"] when no list holds it. *)
Theorem get_zone_tf_first (zone : nat) (zones_by_tf : list (string * list nat)) :
  (Forall (λ item, zone ∉ item.2) zones_by_tf ∧
   _get_zone_tf zone zones_by_tf = "?"%string) ∨
  (∃ before tf zones after,
     zones_by_tf = before ++ (tf, zones) :: after ∧
     Forall (λ item, zone ∉ item.2) before ∧ zone ∈ zones ∧
     _get_zone_tf zone zones_by_tf = tf).
Proof.
  induction zones_by_tf as [|[tf zones] rest IH]; simpl.
  - left. by split.
  - destruct (holds_object zone zones) eqn:E.
    + right. exists [], tf, zones, rest.
      apply holds_object_iff in E. by repeat split.
    + assert (zone ∉ zones) as Hnot.
      { intros Hin%holds_object_iff. congruence. }
      destruct IH as [[Hall Hq]|(before & tf' & zones' & after & -> & Hb & Hin & Hr)].
      * left. split; [by constructor|done].
      * right. exists ((tf, zones) :: before), tf', zones', after.
        split; [done|]. split; [by constructor|]. by split.
Qed.

(** ** Separation of the zones returned *)


